(** * Stock ticker sync: a shallow embedding of [script.py] and [scheduler.py]

  The job pages through a REST endpoint, accumulates the ticker records,
  maps them onto [TARGET_SCHEMA] and appends them to a warehouse table; the
  scheduler runs it once a day and survives its failures.

  Python values are an inductive type, JSON objects are finite maps, the
  console, the network, the clock and the warehouse are an explicit world
  threaded through a small state-and-exception monad. *)

From Stdlib Require Import ZArith Ascii String DecimalString.
From stdpp Require Import base option list gmap strings fin_maps.

Set Warnings "-register-all".

Local Open Scope string_scope.
Local Open Scope Z_scope.

(** ** Python values as the JSON decoder produces them *)

Module Py.

(** A float is kept symbolically: the code only tests it for truth and
    passes it on. *)
Inductive pyfloat :=
| FNan
| FInf (neg : bool)
| FFin (neg : bool) (mantissa : N) (exponent : Z).

Inductive value :=
| VNone
| VBool (b : bool)
| VInt (n : Z)
| VFloat (f : pyfloat)
| VStr (s : string)
| VList (l : list value)
| VDict (d : gmap string value).

(** Instances of Python's [Exception] class that the program can meet. *)
Inductive exn :=
| AttributeError (type_name attr : string)
| TypeError (msg : string)
| RequestException (cls msg : string)
| DriverError (cls msg : string).

Inductive result (A : Type) :=
| Ok (a : A)
| Raise (e : exn).
Arguments Ok {A} a.
Arguments Raise {A} e.

(** A loop that builds a list and lets the first exception out. *)
Fixpoint traverse {A B} (f : A -> result B) (l : list A) : result (list B) :=
  match l with
  | [] => Ok []
  | x :: rest =>
      match f x with
      | Raise e => Raise e
      | Ok y =>
          match traverse f rest with
          | Raise e => Raise e
          | Ok ys => Ok (y :: ys)
          end
      end
  end.

Definition type_name (v : value) : string :=
  match v with
  | VNone => "NoneType"
  | VBool _ => "bool"
  | VInt _ => "int"
  | VFloat _ => "float"
  | VStr _ => "str"
  | VList _ => "list"
  | VDict _ => "dict"
  end.

(** [bool(v)]: the test behind [if v], [while v] and [not v]. *)
Definition truthy (v : value) : bool :=
  match v with
  | VNone => false
  | VBool b => b
  | VInt n => negb (n =? 0)
  | VFloat (FFin _ m _) => negb (m =? 0)%N
  | VFloat _ => true
  | VStr s => negb (String.eqb s "")
  | VList l => match l with [] => false | _ => true end
  | VDict d => negb (Nat.eqb (size d) 0)
  end.

(** [v.get(key, dflt)]: only a dict has the method. *)
Definition get_default (v : value) (key : string) (dflt : value) : result value :=
  match v with
  | VDict d => Ok (default dflt (d !! key))
  | _ => Raise (AttributeError (type_name v) "get")
  end.

(** [v.get(key)] *)
Definition get (v : value) (key : string) : result value :=
  get_default v key VNone.

(** [v != "..."] against a string literal. *)
Definition ne_str (v : value) (lit : string) : bool :=
  match v with
  | VStr s => negb (String.eqb s lit)
  | _ => true
  end.

Definition chars (s : string) : list value :=
  (fun c => VStr (String c EmptyString)) <$> list_ascii_of_string s.

(** What [list.extend(v)] appends: the elements of an iterable, a
    [TypeError] for anything else.  A dict yields its keys; CPython yields
    them in insertion order, which a finite map does not record. *)
Definition iterate (v : value) : result (list value) :=
  match v with
  | VList l => Ok l
  | VStr s => Ok (chars s)
  | VDict d => Ok ((fun kv => VStr kv.1) <$> map_to_list d)
  | _ => Raise (TypeError ("'" ++ type_name v ++ "' object is not iterable"))
  end.

(** [v += s] with [s] a string: concatenation on a string, in-place
    extension on a list, a [TypeError] otherwise. *)
Definition iadd_str (v : value) (s : string) : result value :=
  match v with
  | VStr u => Ok (VStr (u ++ s))
  | VList l => Ok (VList (l ++ chars s)%list)
  | _ => Raise (TypeError ("unsupported operand type(s) for +=: '"
                         ++ type_name v ++ "' and 'str'"))
  end.

Definition lower_ascii (c : ascii) : ascii :=
  let n := nat_of_ascii c in
  if (Nat.leb 65 n && Nat.leb n 90)%bool then ascii_of_nat (n + 32) else c.

Definition upper_ascii (c : ascii) : ascii :=
  let n := nat_of_ascii c in
  if (Nat.leb 97 n && Nat.leb n 122)%bool then ascii_of_nat (n - 32) else c.

Fixpoint map_string (f : ascii -> ascii) (s : string) : string :=
  match s with
  | EmptyString => EmptyString
  | String c r => String (f c) (map_string f r)
  end.

(** [s.lower()] and [s.upper()].  A string is its UTF-8 bytes; only the
    letters A-Z and a-z change case here.  No character outside ASCII
    lowers to a letter of "true" or "false", so the membership test of the
    mapper is decided as Python decides it. *)
Definition lower : string -> string := map_string lower_ascii.
Definition upper : string -> string := map_string upper_ascii.

End Py.

(** ** The calendar behind [date.today().isoformat()] *)

Module Calendar.

(** Days since 1970-01-01 to (year, month, day) of the proleptic Gregorian
    calendar, by eras of 400 years starting on 1 March. *)
Definition civil_from_days (days : Z) : Z * Z * Z :=
  let z := days + 719468 in
  let era := z / 146097 in
  let doe := z - era * 146097 in
  let yoe := (doe - doe / 1460 + doe / 36524 - doe / 146096) / 365 in
  let doy := doe - (365 * yoe + yoe / 4 - yoe / 100) in
  let mp := (5 * doy + 2) / 153 in
  let d := doy - (153 * mp + 2) / 5 + 1 in
  let m := if mp <? 10 then mp + 3 else mp - 9 in
  let y := yoe + era * 400 + (if m <=? 2 then 1 else 0) in
  (y, m, d).

Definition digit (n : Z) : ascii := ascii_of_nat (48 + Z.to_nat (n mod 10)).

Definition pad2 (n : Z) : string :=
  String (digit (n / 10)) (String (digit n) EmptyString).

Definition pad4 (n : Z) : string :=
  String (digit (n / 1000)) (String (digit (n / 100)) (pad2 n)).

(** [date.isoformat()]: YYYY-MM-DD, for the years 1 to 9999 a [date] holds. *)
Definition isoformat (days : Z) : string :=
  let '(y, m, d) := civil_from_days days in
  pad4 y ++ "-" ++ pad2 m ++ "-" ++ pad2 d.

(** The clock counts seconds of local time since 1970-01-01 00:00. *)
Definition date_of (clock : Z) : Z := clock / 86400.

End Calendar.

(** ** The world outside the interpreter *)

Module World.
Import Py.

(** Calls into [snowflake.connector], with their arguments. *)
Inductive driver_call :=
| Connect (user password account warehouse database schema : option string)
| Cursor
| Execute (sql : string)
| ExecuteMany (sql : string) (rows : list (list value))
| Commit
| CursorClose
| ConnClose.

(** One piece of a printed line; values, exceptions and times are kept as
    they are rather than rendered to text. *)
Inductive item :=
| PStr (s : string)
| PVal (v : value)
| PExn (e : exn)
| PInt (n : Z)
| PTime (clock : Z).

Inductive event :=
| EvPrint (line : list item)
| EvGet (url : string)
| EvSleep (secs : Z)
| EvDriver (c : driver_call).

(** What [requests.get] comes back with: an exception of the transport, or
    a response with its body and what [response.json()] makes of it
    ([None]: a [ValueError]). *)
Inductive response :=
| TransportError (e : exn)
| Body (text : string) (json : option value).

Record world := {
  now : Z;
  trace : list event;
  tables : gmap string (list (list value));
  open_connections : nat;
  faults : driver_call -> option exn
}.

Definition emit (e : event) (w : world) : world :=
  {| now := now w; trace := (trace w ++ [e])%list; tables := tables w;
     open_connections := open_connections w; faults := faults w |}.

Definition advance (secs : Z) (w : world) : world :=
  {| now := now w + secs; trace := trace w; tables := tables w;
     open_connections := open_connections w; faults := faults w |}.

Definition set_tables (t : gmap string (list (list value))) (w : world) : world :=
  {| now := now w; trace := trace w; tables := t;
     open_connections := open_connections w; faults := faults w |}.

Definition set_connections (n : nat) (w : world) : world :=
  {| now := now w; trace := trace w; tables := tables w;
     open_connections := n; faults := faults w |}.

(** State and exceptions. *)
Definition M (A : Type) : Type := world -> result A * world.

Definition ret {A} (a : A) : M A := fun w => (Ok a, w).

Definition raise {A} (e : exn) : M A := fun w => (Raise e, w).

Definition bind {A B} (m : M A) (k : A -> M B) : M B :=
  fun w =>
    match m w with
    | (Ok a, w') => k a w'
    | (Raise e, w') => (Raise e, w')
    end.

Definition lift {A} (r : result A) : M A := fun w => (r, w).

(** [try: body except Exception as e: handler e] *)
Definition try_except {A} (body : M A) (handler : exn -> M A) : M A :=
  fun w =>
    match body w with
    | (Ok a, w') => (Ok a, w')
    | (Raise e, w') => handler e w'
    end.

Definition print (line : list item) : M unit :=
  fun w => (Ok tt, emit (EvPrint line) w).

(** [time.sleep(secs)] *)
Definition sleep (secs : Z) : M unit :=
  fun w => (Ok tt, advance secs (emit (EvSleep secs) w)).

(** [datetime.now()] *)
Definition datetime_now : M Z := fun w => (Ok (now w), w).

(** [date.today().isoformat()] *)
Definition today_isoformat : M string :=
  fun w => (Ok (Calendar.isoformat (Calendar.date_of (now w))), w).

(** A call into the driver: it is attempted, then either raises what the
    fault plan says or takes effect on the warehouse. *)
Definition driver (c : driver_call) (effect : world -> world) : M unit :=
  fun w =>
    let w1 := emit (EvDriver c) w in
    match faults w c with
    | Some e => (Raise e, w1)
    | None => (Ok tt, effect w1)
    end.

End World.

Module MonadNotation.
Notation "'let*' x ':=' m 'in' k" := (World.bind m (fun x => k))
  (at level 10, x name, m at level 100, k at level 200,
   format "'[v' 'let*'  x  ':='  m  'in' '/' k ']'").
End MonadNotation.

(** ** [script.py] *)

Module Script.
Import Py World MonadNotation.

(** The module-level constants read from the environment; [os.getenv]
    gives [None] for a variable that is not set. *)
Record config := {
  POLYGON_API_KEY : option string;
  SF_USER : option string;
  SF_PASSWORD : option string;
  SF_ACCOUNT : option string;
  SF_WAREHOUSE : option string;
  SF_DATABASE : option string;
  SF_SCHEMA : option string;
  SF_TABLE : string
}.

Definition LIMIT : Z := 1000.

(** The dict literal, in the order it is written: the order of its keys. *)
Definition TARGET_SCHEMA : list (string * string) :=
  [ ("ticker", "VARCHAR");
    ("name", "VARCHAR");
    ("market", "VARCHAR");
    ("locale", "VARCHAR");
    ("primary_exchange", "VARCHAR");
    ("type", "VARCHAR");
    ("active", "BOOLEAN");
    ("currency_name", "VARCHAR");
    ("cik", "VARCHAR");
    ("composite_figi", "VARCHAR");
    ("share_class_figi", "VARCHAR");
    ("last_updated_utc", "TIMESTAMP_NTZ");
    ("ds", "VARCHAR") ].

(** [str(n)] for an int. *)
Definition str_int (n : Z) : string := NilZero.string_of_int (Z.to_int n).

(** An environment value inside an f-string. *)
Definition fmt_env (o : option string) : string := default "None" o.

(** What one pass through the body of the [while] ends with. *)
Inductive control :=
| Break (tickers : list value)
| Continue (url : value) (tickers : list value).

Section Job.
Variable cfg : config.

Definition api_key_suffix : string := "&apiKey=" ++ fmt_env (POLYGON_API_KEY cfg).

Definition start_url : string :=
  "https://api.polygon.io/v3/reference/tickers"
  ++ "?market=stocks&active=true&order=asc&limit=" ++ str_int LIMIT ++ "&sort=ticker"
  ++ api_key_suffix.

(** [requests.get(url)] followed by the attempt at [response.json()].
    [next] is what the network answers to this request; a script that has
    run out is a network that is down.  Anything but a string is refused by
    the library before a request is sent. *)
Definition requests_get (url : value) (next : option response)
  : M (string * option value) :=
  match url with
  | VStr u =>
      fun w =>
        let w1 := emit (EvGet u) w in
        match next with
        | None => (Raise (RequestException "ConnectionError" u), w1)
        | Some (TransportError e) => (Raise e, w1)
        | Some (Body text json) => (Ok (text, json), w1)
        end
  | _ => raise (RequestException "RequestException" "invalid URL")
  end.

(** The body of [while url:], lines 51 to 76. *)
Definition page (next : option response) (url : value) (tickers : list value)
  : M control :=
  let* _ := print [PStr "Requesting: "; PVal url] in
  let* response := requests_get url next in
  match response.2 with
  | None =>
      let* _ := print [PStr "Invalid JSON response:"; PStr " "; PStr response.1] in
      ret (Break tickers)
  | Some data =>
      let* status := lift (get data "status") in
      if ne_str status "OK" then
        let* err := lift (get data "error") in
        let* _ := print [PStr "Polygon API Error:"; PStr " "; PVal err] in
        ret (Break tickers)
      else
        let* results := lift (get_default data "results" (VList [])) in
        if negb (truthy results) then
          let* _ := print [PStr "No results found on this page"] in
          ret (Break tickers)
        else
          let* more := lift (iterate results) in
          let tickers := (tickers ++ more)%list in
          let* url := lift (get data "next_url") in
          if truthy url then
            let* url := lift (iadd_str url api_key_suffix) in
            let* _ := sleep 15 in
            ret (Continue url tickers)
          else
            ret (Continue url tickers)
  end.

(** The responses left once [page] has run: a request was sent exactly
    when the URL was a string. *)
Definition consumed (url : value) (resps : list response) : list response :=
  match url with
  | VStr _ => tail resps
  | _ => resps
  end.

(** The [while url:] loop over the answers of the network.  Each pass that
    goes on has used one answer, so the recursion is on the script. *)
Fixpoint fetch_loop (resps : list response) (url : value) (tickers : list value)
  (w : world) : result (list value) * list response * world :=
  if negb (truthy url) then (Ok tickers, resps, w)
  else
    match resps with
    | [] =>
        match page None url tickers w with
        | (Raise e, w') => (Raise e, [], w')
        | (Ok (Break t), w') => (Ok t, [], w')
        | (Ok (Continue _ t), w') =>
            (Raise (RequestException "ConnectionError" ""), [], w')
        end
    | r :: rest =>
        match page (Some r) url tickers w with
        | (Raise e, w') => (Raise e, consumed url resps, w')
        | (Ok (Break t), w') => (Ok t, rest, w')
        | (Ok (Continue url' t), w') => fetch_loop rest url' t w'
        end
    end.

Definition cols_order : list string := TARGET_SCHEMA.*1.

Definition columns_sql : string :=
  String.concat ", " ((fun ct => upper ct.1 ++ " " ++ ct.2) <$> TARGET_SCHEMA).

Definition create_table_sql : string :=
  "CREATE TABLE IF NOT EXISTS " ++ SF_TABLE cfg ++ " (" ++ columns_sql ++ ")".

Definition insert_cols : string := String.concat ", " (upper <$> cols_order).

Definition placeholders : string :=
  String.concat ", " ((fun _ => "%s") <$> cols_order).

Definition insert_sql : string :=
  "INSERT INTO " ++ SF_TABLE cfg ++ " (" ++ insert_cols ++ ") VALUES ("
  ++ placeholders ++ ")".

(** Lines 126 and 127. *)
Definition coerce (val : value) : value :=
  match val with
  | VStr s =>
      let l := lower s in
      if (String.eqb l "true" || String.eqb l "false")%bool
      then VBool (String.eqb l "true")
      else val
  | _ => val
  end.

(** One pass of [for col in cols_order], lines 120 to 128. *)
Definition cell (ds_value : string) (t : value) (col : string) : result value :=
  if String.eqb col "ds" then Ok (VStr ds_value)
  else
    match get t col with
    | Raise e => Raise e
    | Ok val => Ok (coerce val)
    end.

(** One pass of [for t in tickers], lines 118 to 129. *)
Definition build_row (ds_value : string) (t : value) : result (list value) :=
  traverse (cell ds_value t) cols_order.

Definition build_rows (ds_value : string) (tickers : list value)
  : result (list (list value)) :=
  traverse (build_row ds_value) tickers.

Definition create_if_missing (tbl : string) (w : world) : world :=
  match tables w !! tbl with
  | Some _ => w
  | None => set_tables (<[tbl := []]> (tables w)) w
  end.

Definition append_rows (tbl : string) (rows : list (list value)) (w : world) : world :=
  set_tables (<[tbl := (default [] (tables w !! tbl) ++ rows)%list]> (tables w)) w.

Definition opened (w : world) : world := set_connections (S (open_connections w)) w.
Definition closed (w : world) : world := set_connections (pred (open_connections w)) w.

(** The [try] block, lines 88 to 139. *)
Definition write_body (tickers : list value) : M unit :=
  let* _ := driver (Connect (SF_USER cfg) (SF_PASSWORD cfg) (SF_ACCOUNT cfg)
                            (SF_WAREHOUSE cfg) (SF_DATABASE cfg) (SF_SCHEMA cfg))
                   opened in
  let* _ := driver Cursor id in
  let* _ := print [PStr "Connected to Snowflake successfully"] in
  let* _ := driver (Execute create_table_sql) (create_if_missing (SF_TABLE cfg)) in
  let* _ := print [PStr "Table "; PStr (SF_TABLE cfg);
                   PStr " created/verified or already exists"] in
  let* ds_value := today_isoformat in
  let* rows := lift (build_rows ds_value tickers) in
  let* _ :=
    match rows with
    | [] => ret tt
    | _ =>
        let* _ := driver (ExecuteMany insert_sql rows) (append_rows (SF_TABLE cfg) rows) in
        let* _ := driver Commit id in
        print [PStr "Successfully inserted "; PInt (Z.of_nat (length rows));
               PStr " rows into "; PStr (SF_TABLE cfg)]
    end in
  let* _ := driver CursorClose id in
  let* _ := driver ConnClose closed in
  print [PStr "Connection closed"].

Definition write_to_snowflake (tickers : list value) : M unit :=
  if negb (truthy (VList tickers)) then
    print [PStr "No tickers to write"]
  else
    try_except (write_body tickers)
      (fun e =>
         let* _ := print [PStr "Snowflake error: "; PExn e] in
         raise e).

(** Lines 78 and 79. *)
Definition write_and_report (tickers : list value) : M unit :=
  let* _ := write_to_snowflake tickers in
  print [PStr "Wrote "; PInt (Z.of_nat (length tickers));
         PStr " rows to Snowflake table "; PStr (SF_TABLE cfg)].

Definition run_stock_job (resps : list response) (w : world)
  : result unit * list response * world :=
  match fetch_loop resps (VStr start_url) [] w with
  | (Raise e, rest, w1) => (Raise e, rest, w1)
  | (Ok tickers, rest, w1) =>
      let '(r, w2) := write_and_report tickers w1 in (r, rest, w2)
  end.

End Job.
End Script.

(** ** [scheduler.py] *)

Module Scheduler.
Import Py World MonadNotation.

(** The [schedule] library as far as the program uses it: one job, due
    every day at 09:00 local time.  [next_0900 t] is the first 09:00 after
    the instant [t]. *)
Definition next_0900 (t : Z) : Z :=
  let midnight := (t / 86400) * 86400 in
  if t mod 86400 <? 32400 then midnight + 32400 else midnight + 86400 + 32400.

Section Loop.
Variable cfg : Script.config.

(** Lines 11 to 17. *)
Definition scheduled_stock_job (resps : list response) (w : world)
  : result unit * list response * world :=
  let w0 := emit (EvPrint [PStr " Stock data sync started at "; PTime (now w)]) w in
  match Script.run_stock_job cfg resps w0 with
  | (Ok _, rest, w1) =>
      (Ok tt, rest,
       emit (EvPrint [PStr "Stock data sync completed at "; PTime (now w1)]) w1)
  | (Raise e, rest, w1) =>
      (Ok tt, rest,
       emit (EvPrint [PStr " Stock data sync failed at "; PTime (now w1);
                      PStr ": "; PExn e]) w1)
  end.

(** [schedule.run_pending()]: the job runs when its time has come, and is
    then due again at the next 09:00. *)
Definition run_pending (next_run : Z) (resps : list response) (w : world)
  : result Z * list response * world :=
  if next_run <=? now w then
    match scheduled_stock_job resps w with
    | (Ok _, rest, w1) => (Ok (next_0900 (now w1)), rest, w1)
    | (Raise e, rest, w1) => (Raise e, rest, w1)
    end
  else (Ok next_run, resps, w).

(** The first [n] passes of [while True:], lines 25 to 27.  The result is
    [Raise e] when an exception ended the loop within them. *)
Fixpoint main_loop (n : nat) (next_run : Z) (resps : list response) (w : world)
  : result Z * list response * world :=
  match n with
  | O => (Ok next_run, resps, w)
  | S k =>
      match run_pending next_run resps w with
      | (Raise e, rest, w1) => (Raise e, rest, w1)
      | (Ok next_run', rest, w1) =>
          match sleep 60 w1 with
          | (Raise e, w2) => (Raise e, rest, w2)
          | (Ok _, w2) => main_loop k next_run' rest w2
          end
      end
  end.

(** The module body: register the job, announce it, loop. *)
Definition main (n : nat) (resps : list response) (w : world)
  : result Z * list response * world :=
  let next_run := next_0900 (now w) in
  let w0 := emit (EvPrint
    [PStr " Scheduler started. Stock data will be synced daily at 09:00 AM"]) w in
  main_loop n next_run resps w0.

End Loop.
End Scheduler.

(** ** Vocabulary of the properties *)

Module Props.
Import Py World Script.

(** What a page that goes on carries: its records and where to go next. *)
Record page_data := {
  pg_results : list value;
  pg_next : string
}.

(** The response parses as JSON with status "OK", a non-empty result list
    and a next-page URL. *)
Definition full_page (r : response) (p : page_data) : Prop :=
  ∃ text d,
    r = Body text (Some (VDict d))
    ∧ d !! "status" = Some (VStr "OK")
    ∧ d !! "results" = Some (VList (pg_results p))
    ∧ pg_results p ≠ []
    ∧ d !! "next_url" = Some (VStr (pg_next p))
    ∧ pg_next p ≠ "".

(** The response parses with status "OK" and either returns an empty result
    list or omits the next-page URL (no such key, or null). *)
Inductive last_page : response → list value → Prop :=
| last_empty text d :
    d !! "status" = Some (VStr "OK") →
    d !! "results" = Some (VList []) →
    last_page (Body text (Some (VDict d))) []
| last_no_next text d rs :
    d !! "status" = Some (VStr "OK") →
    d !! "results" = Some (VList rs) →
    rs ≠ [] →
    d !! "next_url" = None ∨ d !! "next_url" = Some VNone →
    last_page (Body text (Some (VDict d))) rs.

(** The response makes the loop abort: the body is not JSON, or it is an
    object whose status is not "OK". *)
Inductive aborting : response → Prop :=
| abort_json text : aborting (Body text None)
| abort_status text d :
    ne_str (default VNone (d !! "status")) "OK" = true →
    aborting (Body text (Some (VDict d))).

(** The URLs of the requests sent, oldest first. *)
Definition requested (tr : list event) : list string :=
  omap (fun e => match e with EvGet u => Some u | _ => None end) tr.

(** The rows handed to [executemany], oldest first. *)
Definition inserted (tr : list event) : list (list value) :=
  concat (omap (fun e => match e with
                         | EvDriver (ExecuteMany _ rows) => Some rows
                         | _ => None
                         end) tr).

(** The calls into the driver, oldest first. *)
Definition driver_calls (tr : list event) : list driver_call :=
  omap (fun e => match e with EvDriver c => Some c | _ => None end) tr.

(** The seconds spent in [time.sleep]. *)
Definition slept (tr : list event) : Z :=
  foldr (fun e acc => match e with EvSleep secs => secs + acc | _ => acc end) 0 tr.

(** What a run adds to the trace. *)
Definition new_events (w w' : world) : list event :=
  drop (length (trace w)) (trace w').

(** The value a row holds for a column of the schema. *)
Definition field (col : string) (row : list value) : option value :=
  match list_find (String.eqb col) cols_order with
  | Some (i, _) => row !! i
  | None => None
  end.

(** What the loop of [run_stock_job] can change: it prints, requests and
    sleeps, and leaves the warehouse alone. *)
Definition fetch_frame (w w' : world) : Prop :=
  tables w' = tables w
  ∧ open_connections w' = open_connections w
  ∧ faults w' = faults w
  ∧ ∃ δ, trace w' = (trace w ++ δ)%list
         ∧ driver_calls δ = []
         ∧ now w' = now w + slept δ.

Section Pages.
Variable cfg : config.

Definition connect_call : driver_call :=
  Connect (SF_USER cfg) (SF_PASSWORD cfg) (SF_ACCOUNT cfg)
          (SF_WAREHOUSE cfg) (SF_DATABASE cfg) (SF_SCHEMA cfg).

(** The driver raises [e] at the connect, the create-table or the insert
    step of the writer, the steps before it having gone through. *)
Inductive failing_step (tickers : list value) (w : world) (e : exn) : Prop :=
| fails_connect :
    faults w connect_call = Some e →
    failing_step tickers w e
| fails_create :
    faults w connect_call = None →
    faults w Cursor = None →
    faults w (Execute (create_table_sql cfg)) = Some e →
    failing_step tickers w e
| fails_insert rows :
    faults w connect_call = None →
    faults w Cursor = None →
    faults w (Execute (create_table_sql cfg)) = None →
    build_rows (Calendar.isoformat (Calendar.date_of (now w))) tickers = Ok rows →
    faults w (ExecuteMany (insert_sql cfg) rows) = Some e →
    failing_step tickers w e.

(** The line the writer prints before it raises again. *)
Definition error_line (e : exn) : event :=
  EvPrint [PStr "Snowflake error: "; PExn e].

(** The reading of the load date as the date the run started: every row
    handed to the warehouse in the run carries the date of the clock at the
    start of the run. *)
Definition stamped_with_start_date (resps : list response) (w : world) : Prop :=
  let w' := (run_stock_job cfg resps w).2 in
  ∀ row, row ∈ inserted (new_events w w') →
         field "ds" row
         = Some (VStr (Calendar.isoformat (Calendar.date_of (now w)))).

(** The world once a full page requested at [url] has been handled. *)
Definition after_page (url : string) (w : world) : world :=
  advance 15 (emit (EvSleep 15)
    (emit (EvGet url) (emit (EvPrint [PStr "Requesting: "; PVal (VStr url)]) w))).

(** URL and world once the full pages [ps] have been followed from [url]. *)
Fixpoint after_pages (ps : list page_data) (url : string) (w : world)
  : string * world :=
  match ps with
  | [] => (url, w)
  | p :: ps' => after_pages ps' (pg_next p ++ api_key_suffix cfg) (after_page url w)
  end.

(** The requests that following [ps] from [url] sends. *)
Definition urls_followed (url : string) (ps : list page_data) : list string :=
  url :: ((fun p => pg_next p ++ api_key_suffix cfg) <$> ps).

End Pages.

(** The cell of column [col] in the row of the record [t]. *)
Definition mapped (ds_value : string) (t : gmap string value) (col : string) : value :=
  if String.eqb col "ds" then VStr ds_value
  else match t !! col with
       | None => VNone
       | Some val => coerce val
       end.

(** Case-insensitive comparison with a lower-case word, letter by letter:
    each character is the letter itself or its capital. *)
Definition capital (l : ascii) : ascii := ascii_of_nat (nat_of_ascii l - 32).

Fixpoint same_word (s word : string) : bool :=
  match s, word with
  | EmptyString, EmptyString => true
  | String c s', String l word' =>
      (Ascii.eqb c l || Ascii.eqb c (capital l)) && same_word s' word'
  | _, _ => false
  end.

(** The coercion as the specification words it. *)
Definition coerce_spec (v : value) : value :=
  match v with
  | VStr s =>
      if same_word s "true" then VBool true
      else if same_word s "false" then VBool false
      else v
  | _ => v
  end.

End Props.

(** ** Sample inputs *)

Module Sample.
Import Py World Script.

Definition cfg : config :=
  {| POLYGON_API_KEY := Some "KEY";
     SF_USER := Some "loader";
     SF_PASSWORD := Some "secret";
     SF_ACCOUNT := Some "acme";
     SF_WAREHOUSE := Some "compute";
     SF_DATABASE := Some "market";
     SF_SCHEMA := Some "public";
     SF_TABLE := "stock_tickers" |}.

Definition no_faults : driver_call → option exn := fun _ => None.

Definition refused : exn := DriverError "DatabaseError" "connection refused".

(** A warehouse that refuses every connection. *)
Definition connect_refused : driver_call → option exn :=
  fun c => match c with
           | Connect _ _ _ _ _ _ => Some refused
           | _ => None
           end.

(** A world with an empty console and an empty warehouse. *)
Definition world_at (clock : Z) (f : driver_call → option exn) : world :=
  {| now := clock; trace := []; tables := ∅; open_connections := 0; faults := f |}.

Definition aapl : gmap string value :=
  <["ticker" := VStr "AAPL"]> (<["name" := VStr "Apple Inc."]>
  (<["active" := VStr "TRUE"]> (<["ds" := VStr "1999-12-31"]> ∅))).

Definition aapl_other_ds : gmap string value := <["ds" := VInt 7]> aapl.

Definition msft : gmap string value :=
  <["ticker" := VStr "MSFT"]> (<["active" := VBool true]> ∅).

Definition first_page_data : Props.page_data :=
  {| Props.pg_results := [VDict aapl]; Props.pg_next := "https://api.polygon.io/next" |}.

Definition first_page : response :=
  Body "" (Some (VDict (<["status" := VStr "OK"]>
    (<["results" := VList [VDict aapl]]>
    (<["next_url" := VStr "https://api.polygon.io/next"]> ∅))))).

Definition second_page : response :=
  Body "" (Some (VDict (<["status" := VStr "OK"]>
    (<["results" := VList [VDict msft]]> ∅)))).

Definition error_page : response :=
  Body "" (Some (VDict (<["status" := VStr "ERROR"]>
    (<["error" := VStr "rate limit"]> ∅)))).

Definition bare_page_dict : gmap string value := <["status" := VStr "OK"]> ∅.

(** Ten seconds before midnight of the first day of the clock. *)
Definition before_midnight : Z := 86390.

End Sample.

(** ** Vocabulary of the edge cases *)

Module Edges.
Import Py World Script Props.

(** The [TypeError] of [v += "..."] for a [v] that is neither text nor list. *)
Definition iadd_error (v : value) : exn :=
  TypeError ("unsupported operand type(s) for +=: '" ++ type_name v ++ "' and 'str'").

(** The response makes the loop raise [e]: the transport raises it, or the
    body is JSON but not an object, or it is a page with records whose
    next-page value is true in a test but is neither text nor list. *)
Inductive crashing : response → exn → Prop :=
| crash_transport e :
    crashing (TransportError e) e
| crash_not_object text v :
    (∀ d, v ≠ VDict d) →
    crashing (Body text (Some v)) (AttributeError (type_name v) "get")
| crash_next_url text d rs v :
    d !! "status" = Some (VStr "OK") →
    d !! "results" = Some (VList rs) →
    rs ≠ [] →
    d !! "next_url" = Some v →
    truthy v = true →
    (∀ u, v ≠ VStr u) →
    (∀ l, v ≠ VList l) →
    crashing (Body text (Some (VDict d))) (iadd_error v).

(** The URL variable of the loop holds nothing that would be requested
    without the API key. *)
Definition url_keyed (suffix : string) (url : value) : Prop :=
  match url with
  | VStr u => ∃ p, u = (p ++ suffix)%string
  | _ => True
  end.

Section Calls.
Variable cfg : config.

(** The calls of a write that goes through, in order. *)
Definition success_calls (rows : list (list value)) : list driver_call :=
  [ connect_call cfg; Cursor; Execute (create_table_sql cfg);
    ExecuteMany (insert_sql cfg) rows; Commit; CursorClose; ConnClose ].

(** The last line of a job that returns. *)
Definition report_line (n : Z) : event :=
  EvPrint [PStr "Wrote "; PInt n; PStr " rows to Snowflake table ";
           PStr (SF_TABLE cfg)].

Definition carries_key (u : string) : Prop :=
  ∃ p, u = (p ++ api_key_suffix cfg)%string.

(** The rows of the records [ts] under the load date [ds_value]. *)
Definition rows_of (ds_value : string) (ts : list (gmap string value))
  : list (list value) :=
  (fun t => mapped ds_value t <$> cols_order) <$> ts.

End Calls.

End Edges.

(** ** Sample inputs for the edge cases *)

Module EdgeSample.
Import Py World Script.

Definition timed_out : exn := RequestException "ConnectTimeout" "timed out".

(** The network fails on this request. *)
Definition offline : response := TransportError timed_out.

(** A page whose results are null. *)
Definition null_results : gmap string value :=
  <["status" := VStr "OK"]> (<["results" := VNone]> ∅).

(** A warehouse that accepts connections and refuses every statement. *)
Definition statement_refused : driver_call → option exn :=
  fun c => match c with
           | Execute _ => Some Sample.refused
           | _ => None
           end.

(** A record that arrived as text. *)
Definition stray : value := VStr "oops".

Definition aapl_with_extra : gmap string value :=
  <["homepage" := VStr "https://www.apple.com"]> Sample.aapl.

End EdgeSample.

(** ** Properties *)

Import Py World Script Props.

Local Open Scope list_scope.

Section FetchLemmas.
Variable cfg : config.

Lemma truthy_str (u : string) : u ≠ "" → truthy (VStr u) = true.
Proof.
  intros Hu. simpl. destruct (String.eqb_spec u ""); [contradiction | reflexivity].
Qed.

Lemma append_nonempty (u v : string) : u ≠ "" → (u ++ v)%string ≠ "".
Proof. destruct u; [congruence | discriminate]. Qed.

(** A full page is accumulated and its link followed after the pause. *)
Lemma page_full r p url acc w :
  full_page r p →
  page cfg (Some r) (VStr url) acc w
  = (Ok (Continue (VStr (pg_next p ++ api_key_suffix cfg)%string)
           (acc ++ pg_results p)),
     after_page url w).
Proof.
  intros (text & d & -> & Hs & Hr & Hne & Hn & Hu).
  unfold page, bind, print, requests_get, lift, get, get_default. simpl.
  rewrite Hs. simpl. rewrite Hr. simpl.
  destruct (pg_results p) eqn:E; [congruence |]. simpl.
  rewrite Hn. simpl.
  destruct (String.eqb_spec (pg_next p) ""); [contradiction |]. simpl.
  reflexivity.
Qed.

(** The loop runs through a prefix of full pages and goes on with what
    follows them. *)
Lemma fetch_loop_full rs ps : ∀ rest url acc w,
  Forall2 full_page rs ps →
  url ≠ "" →
  fetch_loop cfg (rs ++ rest) (VStr url) acc w
  = fetch_loop cfg rest (VStr (after_pages cfg ps url w).1)
      (acc ++ concat (pg_results <$> ps)) (after_pages cfg ps url w).2.
Proof.
  intros rest url acc w H. revert url acc w.
  induction H as [| r p rs ps Hp _ IH]; intros url acc w Hu.
  - simpl. by rewrite app_nil_r.
  - rewrite <- app_comm_cons. cbn [fetch_loop].
    rewrite (truthy_str url Hu). cbn [negb].
    rewrite (page_full r p url acc w Hp).
    rewrite IH.
    + cbn [after_pages fmap list_fmap concat]. by rewrite <- app_assoc.
    + apply append_nonempty. by destruct Hp as (? & ? & ? & ? & ? & ? & ? & ?).
Qed.

Lemma after_pages_url_nonempty ps : ∀ url w,
  url ≠ "" → Forall (fun p => pg_next p ≠ "") ps → (after_pages cfg ps url w).1 ≠ "".
Proof.
  induction ps as [| p ps IH]; intros url w Hu Hps; [done |].
  inversion Hps; subst. cbn [after_pages]. apply IH; [| done].
  by apply append_nonempty.
Qed.

Lemma full_pages_next rs ps :
  Forall2 full_page rs ps → Forall (fun p => pg_next p ≠ "") ps.
Proof.
  induction 1 as [| r p rs ps Hp _ IH]; constructor; [| done].
  by destruct Hp as (? & ? & ? & ? & ? & ? & ? & ?).
Qed.

Lemma after_pages_now ps : ∀ url w,
  now (after_pages cfg ps url w).2 = now w + 15 * Z.of_nat (length ps).
Proof.
  induction ps as [| p ps IH]; intros url w.
  - simpl. lia.
  - cbn [after_pages]. rewrite IH. cbn [length after_page advance emit now]. lia.
Qed.

Lemma after_pages_tables ps : ∀ url w,
  tables (after_pages cfg ps url w).2 = tables w
  ∧ open_connections (after_pages cfg ps url w).2 = open_connections w
  ∧ faults (after_pages cfg ps url w).2 = faults w.
Proof.
  induction ps as [| p ps IH]; intros url w; [done |].
  cbn [after_pages]. destruct (IH (pg_next p ++ api_key_suffix cfg)%string (after_page url w))
    as (-> & -> & ->). done.
Qed.

Lemma requested_app tr1 tr2 : requested (tr1 ++ tr2) = requested tr1 ++ requested tr2.
Proof. unfold requested. apply omap_app. Qed.

Lemma inserted_app tr1 tr2 : inserted (tr1 ++ tr2) = inserted tr1 ++ inserted tr2.
Proof. unfold inserted. by rewrite omap_app, concat_app. Qed.

Lemma driver_calls_app tr1 tr2 :
  driver_calls (tr1 ++ tr2) = driver_calls tr1 ++ driver_calls tr2.
Proof. unfold driver_calls. apply omap_app. Qed.

(** Following [ps] from [url] sends the request for [url] and for the link
    of every page but the last, and leaves the last link to be requested. *)
Lemma after_pages_requested ps : ∀ url w,
  requested (trace (after_pages cfg ps url w).2) ++ [(after_pages cfg ps url w).1]
  = requested (trace w) ++ urls_followed cfg url ps.
Proof.
  induction ps as [| p ps IH]; intros url w; [done |].
  cbn [after_pages]. rewrite IH. unfold urls_followed.
  cbn [after_page advance emit trace fmap list_fmap].
  rewrite !requested_app. cbn. by rewrite <- !app_assoc.
Qed.

Lemma after_pages_quiet ps : ∀ url w,
  driver_calls (trace (after_pages cfg ps url w).2) = driver_calls (trace w).
Proof.
  induction ps as [| p ps IH]; intros url w; [done |].
  cbn [after_pages]. rewrite IH.
  cbn [after_page advance emit trace]. rewrite !driver_calls_app. cbn.
  by rewrite !app_nil_r.
Qed.

Lemma start_url_nonempty : start_url cfg ≠ "".
Proof. unfold start_url. cbn [append]. discriminate. Qed.

(** The loop stops at a last page, with its records when it has any. *)
Lemma fetch_loop_last r rs rest url acc w :
  last_page r rs →
  url ≠ "" →
  ∃ w', fetch_loop cfg (r :: rest) (VStr url) acc w = (Ok (acc ++ rs), rest, w')
        ∧ requested (trace w') = requested (trace w) ++ [url]
        ∧ driver_calls (trace w') = driver_calls (trace w)
        ∧ now w' = now w.
Proof.
  intros Hl Hu. cbn [fetch_loop]. rewrite (truthy_str url Hu). cbn [negb].
  destruct Hl as [text d Hs Hr | text d rs Hs Hr Hne Hn].
  - unfold page, bind, print, requests_get, lift, get, get_default. simpl.
    rewrite Hs. simpl. rewrite Hr. simpl. rewrite app_nil_r.
    eexists. split; [reflexivity |]. simpl.
    rewrite !requested_app, !driver_calls_app. simpl.
    by rewrite !app_nil_r.
  - unfold page, bind, print, requests_get, lift, get, get_default. simpl.
    rewrite Hs. simpl. rewrite Hr. simpl.
    destruct rs as [| x rs]; [congruence |]. simpl.
    assert (default VNone (d !! "next_url") = VNone) as ->
      by (destruct Hn as [-> | ->]; reflexivity).
    simpl. destruct rest; simpl.
    all: eexists; split; [reflexivity |]; simpl.
    all: rewrite !requested_app, !driver_calls_app; simpl.
    all: by rewrite !app_nil_r.
Qed.

End FetchLemmas.

(** *** The mapper *)

Section MapperLemmas.

Lemma traverse_total {A B} (f : A → B) (l : list A) :
  traverse (fun x => Ok (f x)) l = Ok (f <$> l).
Proof. induction l as [| x l IH]; [done |]. cbn [traverse]. by rewrite IH. Qed.

Lemma traverse_ext {A B} (f g : A → result B) (l : list A) :
  (∀ x, f x = g x) → traverse f l = traverse g l.
Proof.
  intros Hfg. induction l as [| x l IH]; [done |].
  cbn [traverse]. by rewrite Hfg, IH.
Qed.

Lemma cell_dict ds t col : cell ds (VDict t) col = Ok (mapped ds t col).
Proof.
  unfold cell, mapped, get, get_default.
  destruct (String.eqb col "ds"); [done |]. by destruct (t !! col).
Qed.

Lemma build_row_dict ds t :
  build_row ds (VDict t) = Ok (mapped ds t <$> cols_order).
Proof.
  unfold build_row.
  rewrite (traverse_ext _ (fun col => Ok (mapped ds t col))) by apply cell_dict.
  apply traverse_total.
Qed.

Lemma build_rows_dicts ds ts :
  build_rows ds (VDict <$> ts) = Ok ((fun t => mapped ds t <$> cols_order) <$> ts).
Proof.
  unfold build_rows.
  induction ts as [| t ts IH]; [done |].
  cbn [fmap list_fmap traverse]. rewrite build_row_dict.
  change (list_fmap _ _ VDict ts) with (VDict <$> ts). by rewrite IH.
Qed.

(** Lowering a character gives a letter of "true" or "false" exactly when
    the character is that letter or its capital. *)
Lemma lower_ascii_letter (l c : ascii) :
  l ∈ ["t"; "r"; "u"; "e"; "f"; "a"; "l"; "s"]%char →
  Ascii.eqb (lower_ascii c) l = (Ascii.eqb c l || Ascii.eqb c (capital l))%bool.
Proof.
  intros Hl. repeat (apply elem_of_cons in Hl as [-> | Hl]).
  all: try (by apply elem_of_nil in Hl).
  all: destruct c as [[] [] [] [] [] [] [] []]; reflexivity.
Qed.

Lemma lower_same_word (word : string) :
  Forall (fun l => l ∈ ["t"; "r"; "u"; "e"; "f"; "a"; "l"; "s"]%char)
         (list_ascii_of_string word) →
  ∀ s, String.eqb (lower s) word = same_word s word.
Proof.
  induction word as [| l word IH]; intros Hw s.
  - by destruct s.
  - inversion Hw as [| ? ? Hl Hw']; subst.
    destruct s as [| c s]; [done |].
    cbn [lower map_string String.eqb same_word].
    rewrite (lower_ascii_letter l c Hl).
    fold (lower s). rewrite (IH Hw' s).
    by destruct (Ascii.eqb c l || Ascii.eqb c (capital l))%bool.
Qed.

End MapperLemmas.

(** The coercion of the mapper is the one the specification words. *)
Lemma coerce_refines_spec (v : value) : coerce v = coerce_spec v.
Proof.
  destruct v as [| b | n | f | s | l | d]; try reflexivity.
  unfold coerce, coerce_spec. cbv zeta.
  rewrite !lower_same_word by (repeat constructor; set_solver).
  destruct (same_word s "true"), (same_word s "false"); reflexivity.
Qed.

Lemma mapped_lookup ds t j col :
  cols_order !! j = Some col →
  (mapped ds t <$> cols_order) !! j = Some (mapped ds t col).
Proof. intros Hj. by rewrite list_lookup_fmap, Hj. Qed.

Example coerce_upper_true : coerce (VStr "TRUE") = VBool true.
Proof. reflexivity. Qed.

Example coerce_lower_false : coerce (VStr "false") = VBool false.
Proof. reflexivity. Qed.

Example coerce_bool_false : coerce (VBool false) = VBool false.
Proof. reflexivity. Qed.

Example coerce_other_text : coerce (VStr "truely") = VStr "truely".
Proof. reflexivity. Qed.

(** C5.  In the row of a record, the cell of a column other than the load
    date is the record's value for that column after the coercion the
    specification words: a text that reads "true" or "false" whatever the
    case of its letters has become that boolean, and every other value (a
    boolean, a number, null, a list, an object, any other text) stands in the
    row as it was in the record. *)
Theorem mapped_cell_coerced :
  ∀ (ds_value : string) (t : gmap string value) (j : nat) (col : string),
    cols_order !! j = Some col →
    col ≠ "ds" →
    ∃ row,
      build_row ds_value (VDict t) = Ok row
      ∧ row !! j = Some (coerce_spec (default VNone (t !! col))).
Proof.
  intros ds_value t j col Hj Hcol.
  exists (mapped ds_value t <$> cols_order).
  split; [apply build_row_dict |].
  rewrite (mapped_lookup _ _ _ _ Hj). unfold mapped.
  destruct (String.eqb_spec col "ds"); [contradiction |].
  destruct (t !! col); cbn [default]; by rewrite <- ?coerce_refines_spec.
Qed.

(** C6.  The mapper gives one row per record, in the order of the
    records.  Each row has one cell per column of the target schema, in the
    schema's order: the load date for the column [ds], and for any other
    column the record's value under that name (after the boolean coercion),
    or null when the record has no such field.  Nothing is checked and
    nothing is substituted. *)
Theorem mapper_rows_follow_schema :
  ∀ (ds_value : string) (ts : list (gmap string value)),
    ∃ rows,
      build_rows ds_value (VDict <$> ts) = Ok rows
      ∧ length rows = length ts
      ∧ ∀ (i : nat) (t : gmap string value),
          ts !! i = Some t →
          ∃ row,
            rows !! i = Some row
            ∧ length row = length TARGET_SCHEMA
            ∧ ∀ (j : nat) (col ty : string),
                TARGET_SCHEMA !! j = Some (col, ty) →
                row !! j
                = Some (if String.eqb col "ds" then VStr ds_value
                        else match t !! col with
                             | None => VNone
                             | Some val => coerce val
                             end).
Proof.
  intros ds_value ts.
  exists ((fun t => mapped ds_value t <$> cols_order) <$> ts).
  split; [apply build_rows_dicts |].
  split; [apply length_fmap |].
  intros i t Hi. exists (mapped ds_value t <$> cols_order).
  split; [by rewrite list_lookup_fmap, Hi |].
  split; [unfold cols_order; by rewrite !length_fmap |].
  intros j col ty Hj.
  apply mapped_lookup. unfold cols_order. by rewrite list_lookup_fmap, Hj.
Qed.

(** C9.  The cell of the column [ds] is the load date the writer computed,
    whatever the record holds: two records that agree on every field but
    one named [ds] have the same row, so a [ds] that came from the API is
    never written. *)
Theorem load_date_ignores_record :
  ∀ (ds_value : string) (t1 t2 : gmap string value),
    delete "ds" t1 = delete "ds" t2 →
    build_row ds_value (VDict t1) = build_row ds_value (VDict t2)
    ∧ ∃ row,
        build_row ds_value (VDict t1) = Ok row
        ∧ field "ds" row = Some (VStr ds_value).
Proof.
  intros ds_value t1 t2 Heq.
  assert (∀ col, mapped ds_value t1 col = mapped ds_value t2 col) as Hsame.
  { intros col. unfold mapped.
    destruct (String.eqb_spec col "ds") as [| Hne]; [done |].
    assert (t1 !! col = t2 !! col) as ->; [| done].
    rewrite <- (lookup_delete_ne t1 "ds" col), Heq by done.
    by apply lookup_delete_ne. }
  split.
  - rewrite !build_row_dict. f_equal.
    apply list_fmap_ext. intros ? ? ?. apply Hsame.
  - exists (mapped ds_value t1 <$> cols_order).
    split; [apply build_row_dict | reflexivity].
Qed.

(** *** The writer *)

Section WriterLemmas.
Variable cfg : config.

Lemma slept_app tr1 tr2 : slept (tr1 ++ tr2) = slept tr1 + slept tr2.
Proof.
  unfold slept. induction tr1 as [| e tr1 IH]; [done |].
  cbn [app foldr]. rewrite IH. destruct e; lia.
Qed.

Lemma create_if_missing_frame tbl w :
  now (create_if_missing tbl w) = now w
  ∧ trace (create_if_missing tbl w) = trace w
  ∧ faults (create_if_missing tbl w) = faults w
  ∧ open_connections (create_if_missing tbl w) = open_connections w.
Proof. unfold create_if_missing. by destruct (tables w !! tbl). Qed.

Lemma traverse_Forall {A B} (f : A → result B) (P : B → Prop) (l : list A) :
  (∀ x y, f x = Ok y → P y) → ∀ ys, traverse f l = Ok ys → Forall P ys.
Proof.
  intros Hf. induction l as [| x l IH]; intros ys.
  - intros [= <-]. constructor.
  - cbn [traverse]. destruct (f x) as [y |] eqn:Hx; [| discriminate].
    destruct (traverse f l) as [ys' |]; [| discriminate].
    intros [= <-]. constructor; eauto.
Qed.

(** A row that was built carries the load date, whatever the record. *)
Lemma build_row_ds ds t row :
  build_row ds t = Ok row → field "ds" row = Some (VStr ds).
Proof.
  destruct t as [| b | n | f | s | l | d]; try discriminate.
  rewrite build_row_dict. by intros [= <-].
Qed.

Lemma build_rows_ds ds tickers rows :
  build_rows ds tickers = Ok rows →
  Forall (fun row => field "ds" row = Some (VStr ds)) rows.
Proof. apply traverse_Forall. intros t row. apply build_row_ds. Qed.

Lemma build_rows_nonempty ds t tickers :
  build_rows ds (t :: tickers) ≠ Ok [].
Proof.
  unfold build_rows. cbn [traverse].
  destruct (build_row ds t); [| done]. by destruct (traverse _ tickers).
Qed.

End WriterLemmas.

Ltac split_fault :=
  match goal with
  | |- context [match faults ?w ?c with _ => _ end] =>
      let F := fresh "Hfault" in destruct (faults w c) eqn:F
  end.

Ltac world_simpl :=
  repeat (cbn [faults emit advance opened closed set_connections set_tables id
                 append_rows now trace tables open_connections fst snd];
          rewrite ?(proj1 (create_if_missing_frame _ _)),
                  ?(proj1 (proj2 (create_if_missing_frame _ _))),
                  ?(proj1 (proj2 (proj2 (create_if_missing_frame _ _)))));
  cbn [faults emit advance opened closed set_connections set_tables id
         append_rows now trace tables open_connections fst snd].

Ltac writer_leaf :=
  intros [= <- <-]; world_simpl; repeat split; eexists; rewrite <- ?app_assoc;
  (split; [reflexivity |]).

Section WriterTrace.
Variable cfg : config.

(** What the [try] block leaves behind however far it gets: the clock and
    the fault plan are as before, the first thing it did was to call
    connect, and every row it handed to [executemany] carries the date the
    clock showed. *)
Lemma write_body_trace tickers w r w' :
  write_body cfg tickers w = (r, w') →
  now w' = now w ∧ faults w' = faults w ∧
  ∃ δ, trace w' = trace w ++ EvDriver (connect_call cfg) :: δ
       ∧ slept δ = 0
       ∧ Forall (fun row => field "ds" row
                   = Some (VStr (Calendar.isoformat (Calendar.date_of (now w)))))
                (inserted δ).
Proof.
  unfold write_body, bind, driver, print, today_isoformat, lift, ret, connect_call.
  world_simpl.
  split_fault; world_simpl.
  { intros [= <- <-]. world_simpl. repeat split. exists [].
    split; [done | split; [done | constructor]]. }
  split_fault; world_simpl; [writer_leaf; split; [done | constructor] |].
  split_fault; world_simpl; [writer_leaf; split; [done | constructor] |].
  destruct (build_rows _ tickers) as [rows |] eqn:Hrows;
    [| writer_leaf; split; [done | constructor]].
  apply build_rows_ds in Hrows.
  destruct rows as [| row rows].
  { repeat (split_fault; world_simpl).
    all: writer_leaf; split; [done | constructor]. }
  repeat (split_fault; world_simpl).
  all: writer_leaf; (split; [done |]).
  all: unfold inserted; simpl; rewrite ?app_nil_r; exact Hrows.
Qed.

End WriterTrace.

Section WriterErrors.
Variable cfg : config.

Lemma write_nonempty t tickers :
  write_to_snowflake cfg (t :: tickers)
  = try_except (write_body cfg (t :: tickers))
      (fun e => bind (print [PStr "Snowflake error: "; PExn e]) (fun _ => raise e)).
Proof. reflexivity. Qed.

(** An exception of the driver at the connect, create-table or insert step
    comes out of the [try] block as it is. *)
Lemma failing_step_raises t tickers w e :
  failing_step cfg (t :: tickers) w e →
  ∃ w1, write_body cfg (t :: tickers) w = (Raise e, w1).
Proof.
  intros [Hc | Hc Hcur Hcreate | rows Hc Hcur Hcreate Hrows Hins];
    unfold connect_call in *;
    unfold write_body, bind, driver, print, today_isoformat, lift, ret;
    world_simpl; rewrite Hc; world_simpl; [by eexists | |].
  - rewrite Hcur. world_simpl. rewrite Hcreate. by eexists.
  - rewrite Hcur. world_simpl. rewrite Hcreate. world_simpl. rewrite Hrows.
    destruct rows as [| row rows]; [by apply build_rows_nonempty in Hrows |].
    world_simpl. rewrite Hins. by eexists.
Qed.

End WriterErrors.

(** C3.  Handed an empty batch, the writer prints that there is nothing to
    write and returns: no call into the driver is made (no connect, no
    statement), and tables, connections and clock are as they were. *)
Theorem empty_batch_touches_nothing :
  ∀ (cfg : config) (w : world),
    ∃ w',
      write_to_snowflake cfg [] w = (Ok tt, w')
      ∧ trace w' = trace w ++ [EvPrint [PStr "No tickers to write"]]
      ∧ driver_calls (new_events w w') = []
      ∧ tables w' = tables w
      ∧ open_connections w' = open_connections w
      ∧ now w' = now w.
Proof.
  intros cfg w. eexists. split; [reflexivity |].
  unfold new_events. cbn [print emit trace tables open_connections now].
  by rewrite drop_app_length.
Qed.

(** C7.  For a batch that is not empty: when the driver raises at the
    connect, the create-table or the insert step, the writer prints the
    error and raises that same exception; more generally whatever exception
    leaves the [try] block is printed and raised again, and the writer
    raises nothing else and turns no exception into a normal return. *)
Theorem writer_logs_and_reraises :
  ∀ (cfg : config) (tickers : list value) (w : world),
    tickers ≠ [] →
    (∀ e, failing_step cfg tickers w e →
          ∃ w1, write_to_snowflake cfg tickers w = (Raise e, emit (error_line e) w1))
    ∧ (∀ e w1, write_body cfg tickers w = (Raise e, w1) →
               write_to_snowflake cfg tickers w = (Raise e, emit (error_line e) w1))
    ∧ (∀ e w', write_to_snowflake cfg tickers w = (Raise e, w') →
               ∃ w1, write_body cfg tickers w = (Raise e, w1)
                     ∧ w' = emit (error_line e) w1)
    ∧ (∀ w', write_to_snowflake cfg tickers w = (Ok tt, w') →
             write_body cfg tickers w = (Ok tt, w')).
Proof.
  intros cfg [| t tickers] w Hne; [done |].
  rewrite write_nonempty. unfold try_except, bind, print, raise, error_line.
  assert (∀ e w1, write_body cfg (t :: tickers) w = (Raise e, w1) →
                  match write_body cfg (t :: tickers) w with
                  | (Ok a, w2) => (Ok a, w2)
                  | (Raise e0, w2) =>
                      (Raise e0, emit (EvPrint [PStr "Snowflake error: "; PExn e0]) w2)
                  end
                  = (Raise e, emit (EvPrint [PStr "Snowflake error: "; PExn e]) w1))
    as Hraise by (by intros e w1 ->).
  split; [| split; [exact Hraise | split]].
  - intros e Hstep. destruct (failing_step_raises cfg t tickers w e Hstep) as [w1 Hb].
    exists w1. by apply Hraise.
  - intros e w'. destruct (write_body cfg (t :: tickers) w) as [[[] | e0] w1].
    + discriminate.
    + intros [= -> <-]. by exists w1.
  - intros w'. destruct (write_body cfg (t :: tickers) w) as [[[] | e0] w1].
    + by intros [= <-].
    + discriminate.
Qed.

(** *** What the loop leaves behind, whatever the network answers *)

Ltac frame_now :=
  repeat split; eexists; cbn [trace emit advance now]; rewrite <- ?app_assoc;
  (split; [reflexivity |]); (split; [reflexivity |]); cbn; lia.

Section FetchFrame.
Variable cfg : config.

Lemma fetch_frame_refl w : fetch_frame w w.
Proof. repeat split. exists []. rewrite app_nil_r. repeat split. simpl. lia. Qed.

Lemma fetch_frame_trans w1 w2 w3 :
  fetch_frame w1 w2 → fetch_frame w2 w3 → fetch_frame w1 w3.
Proof.
  intros (Ht & Ho & Hf & δ & Hδ & Hd & Hn) (Ht' & Ho' & Hf' & δ' & Hδ' & Hd' & Hn').
  repeat split; try congruence.
  exists (δ ++ δ'). rewrite app_assoc, <- Hδ, <- Hδ'. split; [done |].
  rewrite driver_calls_app, Hd, Hd', slept_app. split; [done | lia].
Qed.

Lemma page_frame next url acc w r w' :
  page cfg next url acc w = (r, w') → fetch_frame w w'.
Proof.
  unfold page, bind, print, requests_get, lift, raise, ret, sleep.
  destruct url as [| b | n | f | u | l | d]; try (intros [= <- <-]; frame_now).
  destruct next as [[e | text [data |]] |]; cbn [fst snd];
    try (intros [= <- <-]; frame_now).
  destruct (get data "status") as [status |]; [| intros [= <- <-]; frame_now].
  destruct (ne_str status "OK").
  { destruct (get data "error"); intros [= <- <-]; frame_now. }
  destruct (get_default data "results" (VList [])) as [results |];
    [| intros [= <- <-]; frame_now].
  destruct (negb (truthy results)); [intros [= <- <-]; frame_now |].
  destruct (iterate results); [| intros [= <- <-]; frame_now].
  destruct (get data "next_url") as [url' |]; [| intros [= <- <-]; frame_now].
  destruct (truthy url'); [| intros [= <- <-]; frame_now].
  destruct (iadd_str url' (api_key_suffix cfg)); intros [= <- <-]; frame_now.
Qed.

(** With the network down the body of the loop raises: the branch of
    [fetch_loop] for a pass that goes on without an answer is never taken. *)
Lemma page_offline url acc w :
  ∃ e w', page cfg None url acc w = (Raise e, w').
Proof.
  unfold page, bind, print, requests_get, raise.
  destruct url; by do 2 eexists.
Qed.

Lemma fetch_loop_frame resps : ∀ url acc w r rest w',
  fetch_loop cfg resps url acc w = (r, rest, w') → fetch_frame w w'.
Proof.
  induction resps as [| resp resps IH]; intros url acc w r rest w'; cbn [fetch_loop].
  - destruct (negb (truthy url)); [intros [= <- <- <-]; apply fetch_frame_refl |].
    destruct (page cfg None url acc w) as [[[t | u t] | e] w1] eqn:Hp;
      intros [= <- <- <-]; by eapply page_frame.
  - destruct (negb (truthy url)); [intros [= <- <- <-]; apply fetch_frame_refl |].
    destruct (page cfg (Some resp) url acc w) as [[[t | u t] | e] w1] eqn:Hp.
    + intros [= <- <- <-]; by eapply page_frame.
    + intros Hl. eapply fetch_frame_trans; [by eapply page_frame | by eapply IH].
    + intros [= <- <- <-]; by eapply page_frame.
Qed.

(** The loop stops at a response that does not parse or whose status is not
    "OK", and keeps what it had accumulated. *)
Lemma fetch_loop_abort r rest url acc w :
  aborting r →
  url ≠ "" →
  ∃ w', fetch_loop cfg (r :: rest) (VStr url) acc w = (Ok acc, rest, w')
        ∧ fetch_frame w w'.
Proof.
  intros Ha Hu. cbn [fetch_loop]. rewrite (truthy_str url Hu). cbn [negb].
  destruct (page cfg (Some r) (VStr url) acc w) as [c w'] eqn:Hp.
  pose proof (page_frame _ _ _ _ _ _ Hp) as Hframe.
  revert Hp. unfold page, bind, print, requests_get, lift, get, get_default, ret.
  destruct Ha as [text | text d Hs]; cbn [fst snd].
  - intros [= <- <-]. by eexists.
  - rewrite Hs. intros [= <- <-]. by eexists.
Qed.

End FetchFrame.

Section WriterOk.
Variable cfg : config.

Lemma create_if_missing_tables tbl w :
  tables (create_if_missing tbl w) !! tbl = Some (default [] (tables w !! tbl))
  ∧ ∀ k, k ≠ tbl → tables (create_if_missing tbl w) !! k = tables w !! k.
Proof.
  unfold create_if_missing. destruct (tables w !! tbl) eqn:Ht.
  - by rewrite Ht.
  - cbn [set_tables tables]. rewrite lookup_insert_eq. split; [done |].
    intros k Hk. by rewrite lookup_insert_ne.
Qed.

(** With a driver that raises nothing, a non-empty batch of records is
    appended to the target table, one row per record. *)
Lemma write_to_snowflake_ok ts w :
  (∀ c, faults w c = None) →
  ts ≠ [] →
  ∃ w',
    write_to_snowflake cfg (VDict <$> ts) w = (Ok tt, w')
    ∧ tables w' !! SF_TABLE cfg
      = Some (default [] (tables w !! SF_TABLE cfg)
              ++ ((fun t => mapped (Calendar.isoformat (Calendar.date_of (now w))) t
                              <$> cols_order) <$> ts))
    ∧ (∀ k, k ≠ SF_TABLE cfg → tables w' !! k = tables w !! k)
    ∧ open_connections w' = open_connections w
    ∧ now w' = now w
    ∧ faults w' = faults w.
Proof.
  intros Hf Hne. destruct ts as [| t ts]; [done |].
  change (VDict <$> t :: ts) with (VDict t :: (VDict <$> ts)).
  rewrite write_nonempty.
  change (VDict t :: (VDict <$> ts)) with (VDict <$> t :: ts).
  unfold try_except, write_body, bind, driver, print, today_isoformat, lift, ret.
  world_simpl. repeat (rewrite !Hf; world_simpl).
  rewrite build_rows_dicts.
  cbn [fmap list_fmap]. world_simpl. repeat (rewrite !Hf; world_simpl).
  eexists. split; [reflexivity |]. world_simpl.
  destruct (create_if_missing_tables (SF_TABLE cfg)
    (emit (EvDriver (Execute (create_table_sql cfg)))
       (emit (EvPrint [PStr "Connected to Snowflake successfully"])
          (emit (EvDriver Cursor) (opened (emit (EvDriver (connect_call cfg)) w))))))
    as [Hhere Helse].
  unfold connect_call in *. revert Hhere Helse. world_simpl. intros Hhere Helse.
  rewrite lookup_insert_eq, Hhere. split; [done |].
  split; [intros k Hk; rewrite lookup_insert_ne by done; by apply Helse |].
  rewrite (proj2 (proj2 (proj2 (create_if_missing_frame _ _)))). done.
Qed.
End WriterOk.

Section WriterFrame.
Variable cfg : config.

Lemma inserted_quiet δ : driver_calls δ = [] → inserted δ = [].
Proof.
  unfold driver_calls, inserted. induction δ as [| e δ IH]; [done |].
  destruct e as [| | | c]; cbn; try exact IH. discriminate.
Qed.

(** The writer as a whole: it never sleeps, and what it hands to
    [executemany] carries the date of the clock. *)
Lemma write_to_snowflake_trace tickers w r w' :
  write_to_snowflake cfg tickers w = (r, w') →
  now w' = now w ∧
  ∃ δ, trace w' = trace w ++ δ
       ∧ slept δ = 0
       ∧ Forall (fun row => field "ds" row
                   = Some (VStr (Calendar.isoformat (Calendar.date_of (now w)))))
                (inserted δ)
       ∧ (tickers ≠ [] → ∃ δ', δ = EvDriver (connect_call cfg) :: δ').
Proof.
  destruct tickers as [| t tickers].
  - intros [= <- <-]. split; [done |]. eexists. split; [reflexivity |].
    repeat split; [constructor | done].
  - rewrite write_nonempty. unfold try_except, bind, print, raise.
    destruct (write_body cfg (t :: tickers) w) as [[[] | e] wb] eqn:Hb;
      destruct (write_body_trace cfg _ _ _ _ Hb) as (Hn & _ & δ & Hδ & Hs & Hds);
      intros [= <- <-].
    + split; [done |]. exists (EvDriver (connect_call cfg) :: δ).
      repeat split; eauto.
    + split; [done |].
      exists (EvDriver (connect_call cfg) :: (δ ++ [EvPrint [PStr "Snowflake error: "; PExn e]])).
      cbn [emit trace]. rewrite Hδ, <- app_assoc. split; [done |].
      change (slept (EvDriver (connect_call cfg) :: δ ++ [EvPrint [PStr "Snowflake error: "; PExn e]]))
        with (slept (δ ++ [EvPrint [PStr "Snowflake error: "; PExn e]])).
      change (inserted (EvDriver (connect_call cfg) :: δ ++ [EvPrint [PStr "Snowflake error: "; PExn e]]))
        with (inserted (δ ++ [EvPrint [PStr "Snowflake error: "; PExn e]])).
      rewrite slept_app, inserted_app, Hs.
      repeat split; [by rewrite app_nil_r | eauto].
Qed.

End WriterFrame.

(** *** Lemmas on the job as a whole *)

Section JobLemmas.
Variable cfg : config.

Lemma full_pages_accumulate rs ps :
  Forall2 full_page rs ps → rs ≠ [] → concat (pg_results <$> ps) ≠ [].
Proof.
  intros [| r p rs' ps' Hp _] Hne; [done |].
  destruct Hp as (_ & _ & _ & _ & _ & Hres & _).
  cbn [fmap list_fmap concat]. destruct (pg_results p); [done | discriminate].
Qed.

(** The loop over a prefix of full pages followed by an abort. *)
Lemma fetch_loop_full_abort rs ps bad rest w :
  Forall2 full_page rs ps →
  aborting bad →
  ∃ w1, fetch_loop cfg (rs ++ bad :: rest) (VStr (start_url cfg)) [] w
        = (Ok (concat (pg_results <$> ps)), rest, w1).
Proof.
  intros Hfull Habort.
  rewrite (fetch_loop_full cfg rs ps _ _ _ _ Hfull (start_url_nonempty cfg)).
  destruct (fetch_loop_abort cfg bad rest (after_pages cfg ps (start_url cfg) w).1
              ([] ++ concat (pg_results <$> ps))
              (after_pages cfg ps (start_url cfg) w).2 Habort) as (w1 & Hrun & _).
  { apply after_pages_url_nonempty; [apply start_url_nonempty |].
    by eapply full_pages_next. }
  by exists w1.
Qed.

(** The loop over a prefix of full pages followed by a last page. *)
Lemma fetch_loop_pages rs ps r_last rs_last rest w :
  Forall2 full_page rs ps →
  last_page r_last rs_last →
  ∃ w',
    fetch_loop cfg (rs ++ r_last :: rest) (VStr (start_url cfg)) [] w
    = (Ok (concat (pg_results <$> ps) ++ rs_last), rest, w')
    ∧ requested (trace w')
      = requested (trace w) ++ urls_followed cfg (start_url cfg) ps.
Proof.
  intros Hfull Hlast.
  rewrite (fetch_loop_full cfg rs ps _ _ _ _ Hfull (start_url_nonempty cfg)).
  destruct (fetch_loop_last cfg r_last rs_last rest
              (after_pages cfg ps (start_url cfg) w).1
              ([] ++ concat (pg_results <$> ps))
              (after_pages cfg ps (start_url cfg) w).2 Hlast)
    as (w' & Hrun & Hreq & _ & _).
  { apply after_pages_url_nonempty; [apply start_url_nonempty |].
    by eapply full_pages_next. }
  exists w'. split; [exact Hrun |].
  rewrite Hreq. apply after_pages_requested.
Qed.

Lemma run_after_fetch resps w acc rest w1 :
  fetch_loop cfg resps (VStr (start_url cfg)) [] w = (Ok acc, rest, w1) →
  run_stock_job cfg resps w
  = (let '(r, w2) := write_and_report cfg acc w1 in (r, rest, w2)).
Proof. intros Hf. unfold run_stock_job. by rewrite Hf. Qed.

End JobLemmas.


Section RunTrace.
Variable cfg : config.

Lemma new_events_app w w' δ : trace w' = trace w ++ δ → new_events w w' = δ.
Proof. intros H. unfold new_events. rewrite H. apply drop_app_length. Qed.

(** A run as a whole: first the loop, which never touches the driver, then
    the writer, which never sleeps and stamps its rows with the date of the
    clock as the loop left it. *)
Lemma run_stock_job_trace resps w r rest w' :
  run_stock_job cfg resps w = (r, rest, w') →
  ∃ δf δw,
    trace w' = trace w ++ δf ++ δw
    ∧ driver_calls δf = []
    ∧ slept δw = 0
    ∧ now w' = now w + slept δf
    ∧ Forall (fun row => field "ds" row
                = Some (VStr (Calendar.isoformat (Calendar.date_of (now w')))))
             (inserted δw).
Proof.
  unfold run_stock_job.
  destruct (fetch_loop cfg resps (VStr (start_url cfg)) [] w) as [[[acc | e] rest1] w1] eqn:Hf.
  all: destruct (fetch_loop_frame cfg _ _ _ _ _ _ _ Hf) as (_ & _ & _ & δf & Hδf & Hq & Hn).
  - unfold write_and_report, bind, print.
    destruct (write_to_snowflake cfg acc w1) as [[[] | e] w2] eqn:Hw;
      destruct (write_to_snowflake_trace cfg _ _ _ _ Hw) as (Hn2 & δw & Hδw & Hs & Hds & _);
      intros [= <- <- <-].
    + exists δf, (δw ++ [EvPrint [PStr "Wrote "; PInt (Z.of_nat (length acc));
                                   PStr " rows to Snowflake table "; PStr (SF_TABLE cfg)]]).
      cbn [emit trace now]. rewrite Hδw, Hδf, <- !app_assoc.
      rewrite slept_app, inserted_app, Hs, app_nil_r, Hn2, Hn.
      repeat split; try done. by rewrite Hn in Hds.
    + exists δf, δw. rewrite Hδw, Hδf, <- !app_assoc, Hn2, Hn.
      repeat split; try done. by rewrite Hn in Hds.
  - intros [= <- <- <-]. exists δf, []. rewrite app_nil_r.
    repeat split; try done.
Qed.

End RunTrace.


Section SchedulerLemmas.
Variable cfg : config.
Import Scheduler.

Lemma scheduled_stock_job_returns resps w :
  ∃ rest w', scheduled_stock_job cfg resps w = (Ok tt, rest, w').
Proof.
  unfold scheduled_stock_job.
  destruct (run_stock_job cfg resps _) as [[[[] | e] rest] w1]; by do 2 eexists.
Qed.

Lemma main_loop_goes_on n : ∀ next_run resps w,
  ∃ next_run' rest w', main_loop cfg n next_run resps w = (Ok next_run', rest, w').
Proof.
  induction n as [| n IH]; intros next_run resps w; [by do 3 eexists |].
  cbn [main_loop]. unfold run_pending.
  destruct (next_run <=? now w).
  - destruct (scheduled_stock_job_returns resps w) as (rest & w1 & ->).
    cbn [sleep]. apply IH.
  - cbn [sleep]. apply IH.
Qed.

End SchedulerLemmas.


(** *** The job and the scheduler *)

(** C1.  When the network answers with full pages (status "OK", non-empty
    result list, next-page URL) and then with a page that returns an empty
    result list or omits the next-page URL, the loop of [run_stock_job] ends
    normally holding the records of every page in order; it has requested
    the start URL and then the link of each full page, and nothing after
    the last page: the answers that follow it are left unread. *)
Theorem fetch_accumulates_every_page :
  ∀ (cfg : config) (rs : list response) (ps : list page_data)
    (r_last : response) (rs_last : list value) (rest : list response) (w : world),
    Forall2 full_page rs ps →
    last_page r_last rs_last →
    ∃ w',
      fetch_loop cfg (rs ++ r_last :: rest) (VStr (start_url cfg)) [] w
      = (Ok (concat (pg_results <$> ps) ++ rs_last), rest, w')
      ∧ requested (trace w')
        = requested (trace w) ++ urls_followed cfg (start_url cfg) ps
      ∧ length (requested (trace w'))
        = (length (requested (trace w)) + length rs + 1)%nat.
Proof.
  intros cfg rs ps r_last rs_last rest w Hfull Hlast.
  destruct (fetch_loop_pages cfg rs ps r_last rs_last rest w Hfull Hlast)
    as (w' & Hrun & Hreq).
  exists w'. split; [exact Hrun |]. split; [exact Hreq |].
  rewrite Hreq, length_app. unfold urls_followed. cbn [length].
  rewrite length_fmap. apply Forall2_length in Hfull. lia.
Qed.

(** C2.  When the network answers with full pages and then with a response
    that is not JSON or whose status is not "OK", the loop ends with the
    records of the full pages, which are not empty, and the job goes on to
    the writer with exactly these records: the writer does not take its
    short cut but calls connect, and with a driver that raises nothing and
    records that are objects the target table ends one row longer per
    record. *)
Theorem partial_batch_is_written :
  ∀ (cfg : config) (rs : list response) (ps : list page_data) (bad : response)
    (rest : list response) (w : world),
    Forall2 full_page rs ps →
    rs ≠ [] →
    aborting bad →
    ∃ w1,
      fetch_loop cfg (rs ++ bad :: rest) (VStr (start_url cfg)) [] w
      = (Ok (concat (pg_results <$> ps)), rest, w1)
      ∧ concat (pg_results <$> ps) ≠ []
      ∧ run_stock_job cfg (rs ++ bad :: rest) w
        = (let '(r, w2) := write_and_report cfg (concat (pg_results <$> ps)) w1 in
           (r, rest, w2))
      ∧ (∀ r w2,
           write_to_snowflake cfg (concat (pg_results <$> ps)) w1 = (r, w2) →
           ∃ δ, trace w2 = trace w1 ++ EvDriver (connect_call cfg) :: δ)
      ∧ (∀ ts : list (gmap string value),
           concat (pg_results <$> ps) = VDict <$> ts →
           (∀ c, faults w c = None) →
           ∃ w2 rows,
             run_stock_job cfg (rs ++ bad :: rest) w = (Ok tt, rest, w2)
             ∧ length rows = length ts
             ∧ tables w2 !! SF_TABLE cfg
               = Some (default [] (tables w !! SF_TABLE cfg) ++ rows)).
Proof.
  intros cfg rs ps bad rest w Hfull Hne Habort.
  destruct (fetch_loop_full_abort cfg rs ps bad rest w Hfull Habort) as [w1 Hfetch].
  pose proof (full_pages_accumulate rs ps Hfull Hne) as Hacc.
  pose proof (run_after_fetch cfg _ _ _ _ _ Hfetch) as Hrun.
  exists w1. repeat split; try done.
  - intros r w2 Hw.
    destruct (write_to_snowflake_trace cfg _ _ _ _ Hw) as (_ & δ & Hδ & _ & _ & Hc).
    destruct (Hc Hacc) as [δ' ->]. by exists δ'.
  - intros ts Hts Hnf.
    destruct (fetch_loop_frame cfg _ _ _ _ _ _ _ Hfetch) as (Ht & _ & Hf & _).
    destruct (write_to_snowflake_ok cfg ts w1) as (w2 & Hw & Htab & _).
    { intros c. by rewrite Hf. }
    { intros ->. by rewrite Hts in Hacc. }
    eexists. eexists. split; [| split].
    + rewrite Hrun. unfold write_and_report, bind. rewrite Hts, Hw. reflexivity.
    + apply length_fmap.
    + cbn [print emit tables]. rewrite Htab, Ht. reflexivity.
Qed.


(** C10.  A response that parses with status "OK" and has no [results] key
    is handled as the same response with an empty result list: the body of
    the loop does the same on both, it breaks out of the loop without an
    exception after printing that the page has no results, and the records
    of the full pages before it go to the writer. *)
Theorem missing_results_ends_pagination :
  ∀ (cfg : config) (text : string) (d : gmap string value),
    d !! "status" = Some (VStr "OK") →
    d !! "results" = None →
    (∀ url acc w,
       page cfg (Some (Body text (Some (VDict d)))) url acc w
       = page cfg (Some (Body text (Some (VDict (<["results" := VList []]> d)))))
           url acc w)
    ∧ (∀ u acc w,
         page cfg (Some (Body text (Some (VDict d)))) (VStr u) acc w
         = (Ok (Break acc),
            emit (EvPrint [PStr "No results found on this page"])
              (emit (EvGet u) (emit (EvPrint [PStr "Requesting: "; PVal (VStr u)]) w))))
    ∧ (∀ rs ps rest w,
         Forall2 full_page rs ps →
         ∃ w1,
           fetch_loop cfg (rs ++ Body text (Some (VDict d)) :: rest)
             (VStr (start_url cfg)) [] w
           = (Ok (concat (pg_results <$> ps)), rest, w1)
           ∧ fetch_loop cfg
               (rs ++ Body text (Some (VDict (<["results" := VList []]> d))) :: rest)
               (VStr (start_url cfg)) [] w
             = (Ok (concat (pg_results <$> ps)), rest, w1)
           ∧ run_stock_job cfg (rs ++ Body text (Some (VDict d)) :: rest) w
             = (let '(r, w2) := write_and_report cfg (concat (pg_results <$> ps)) w1 in
                (r, rest, w2))).
Proof.
  intros cfg text d Hs Hr.
  assert (∀ url acc w,
       page cfg (Some (Body text (Some (VDict d)))) url acc w
       = page cfg (Some (Body text (Some (VDict (<["results" := VList []]> d)))))
           url acc w) as Hsame.
  { intros url acc w.
    unfold page, bind, print, requests_get, lift, get, get_default, raise.
    destruct url; try reflexivity. cbn [fst snd].
    rewrite lookup_insert_ne by done. rewrite Hs. cbn [default ne_str String.eqb].
    simpl. rewrite Hr, lookup_insert_eq. reflexivity. }
  split; [exact Hsame |]. split.
  - intros u acc w.
    unfold page, bind, print, requests_get, lift, get, get_default, raise.
    cbn [fst snd]. rewrite Hs. simpl. rewrite Hr. reflexivity.
  - intros rs ps rest w Hfull.
    assert (last_page (Body text (Some (VDict (<["results" := VList []]> d)))) []) as Hlast.
    { constructor; [by rewrite lookup_insert_ne | by rewrite lookup_insert_eq]. }
    destruct (fetch_loop_pages cfg rs ps _ [] rest w Hfull Hlast)
      as (w1 & Hfetch & _).
    rewrite app_nil_r in Hfetch.
    assert (fetch_loop cfg (rs ++ Body text (Some (VDict d)) :: rest)
              (VStr (start_url cfg)) [] w
            = (Ok (concat (pg_results <$> ps)), rest, w1)) as Hmissing.
    { rewrite <- Hfetch.
      rewrite !(fetch_loop_full cfg rs ps _ _ _ _ Hfull (start_url_nonempty cfg)).
      assert ((after_pages cfg ps (start_url cfg) w).1 ≠ "") as Hu.
      { apply after_pages_url_nonempty; [apply start_url_nonempty |].
        by eapply full_pages_next. }
      cbn [fetch_loop consumed tail]. rewrite (truthy_str _ Hu). cbn [negb].
      by rewrite Hsame. }
    exists w1. split; [exact Hmissing |]. split; [exact Hfetch |].
    by apply run_after_fetch.
Qed.

(** C4, as the code has it.  Every row handed to the warehouse in a run
    carries one and the same load date: the calendar date of the clock when
    the writer builds its rows, that is the clock of the start of the run
    advanced by the pauses of the pagination. *)
Theorem load_date_is_date_at_write :
  ∀ (cfg : config) (resps : list response) (w : world) (row : list value),
    row ∈ inserted (new_events w (run_stock_job cfg resps w).2) →
    field "ds" row
    = Some (VStr (Calendar.isoformat (Calendar.date_of
              (now w + slept (new_events w (run_stock_job cfg resps w).2))))).
Proof.
  intros cfg resps w row.
  destruct (run_stock_job cfg resps w) as [[r rest] w'] eqn:Hrun. cbn [snd].
  destruct (run_stock_job_trace cfg _ _ _ _ _ Hrun) as (δf & δw & Hδ & Hq & Hs & Hn & Hds).
  rewrite (new_events_app w w' (δf ++ δw)) by done.
  rewrite inserted_app, slept_app, (inserted_quiet δf Hq), Hs, Z.add_0_r, <- Hn.
  cbn [app]. intros Hrow. by eapply Forall_forall in Hds.
Qed.


(** C4 as stated fails: a run that starts ten seconds before midnight and
    follows one next-page link sleeps past midnight, and its rows carry the
    date of the next day, not the date the run started. *)
Lemma load_date_counterexample :
  ¬ stamped_with_start_date Sample.cfg [Sample.first_page; Sample.second_page]
      (Sample.world_at Sample.before_midnight Sample.no_faults).
Proof.
  intros H.
  specialize (H (mapped "1970-01-02" Sample.aapl <$> cols_order)).
  assert (Some (VStr "1970-01-02") = Some (VStr "1970-01-01")) as Hbad.
  { apply H. vm_compute. left. }
  discriminate Hbad.
Qed.


(** C8.  The wrapper the scheduler calls always returns normally; when
    the job raises, the wrapper has printed the failure with the time and
    the exception; and every pass of the polling loop is followed by the
    next, whatever the jobs in it did. *)
Theorem job_failure_never_stops_scheduler :
  ∀ (cfg : config) (resps : list response) (w : world),
    (∃ rest w', Scheduler.scheduled_stock_job cfg resps w = (Ok tt, rest, w'))
    ∧ (∀ e rest w1,
         run_stock_job cfg resps
           (emit (EvPrint [PStr " Stock data sync started at "; PTime (now w)]) w)
         = (Raise e, rest, w1) →
         Scheduler.scheduled_stock_job cfg resps w
         = (Ok tt, rest,
            emit (EvPrint [PStr " Stock data sync failed at "; PTime (now w1);
                           PStr ": "; PExn e]) w1))
    ∧ (∀ n next_run,
         ∃ next_run' rest w',
           Scheduler.main_loop cfg n next_run resps w = (Ok next_run', rest, w')).
Proof.
  intros cfg resps w. split; [apply scheduled_stock_job_returns |]. split.
  - intros e rest w1 Hrun. unfold Scheduler.scheduled_stock_job. by rewrite Hrun.
  - intros n next_run. apply main_loop_goes_on.
Qed.

(** *** The properties at the sample inputs *)

Lemma sample_first_page_full :
  Forall2 full_page [Sample.first_page] [Sample.first_page_data].
Proof.
  constructor; [| constructor].
  eexists _, _. split; [reflexivity |]. by repeat split.
Defined.

Lemma sample_second_page_last :
  last_page Sample.second_page [VDict Sample.msft].
Proof. apply last_no_next; [reflexivity | reflexivity | discriminate | by left]. Defined.

Lemma sample_error_page_aborts : aborting Sample.error_page.
Proof. apply abort_status. reflexivity. Defined.

Lemma fetch_accumulates_every_page_witness :
  Forall2 full_page [Sample.first_page] [Sample.first_page_data]
  ∧ last_page Sample.second_page [VDict Sample.msft]
  ∧ ∃ w',
      fetch_loop Sample.cfg ([Sample.first_page] ++ Sample.second_page :: [])
        (VStr (start_url Sample.cfg)) [] (Sample.world_at 0 Sample.no_faults)
      = (Ok (concat (pg_results <$> [Sample.first_page_data]) ++ [VDict Sample.msft]),
         [], w')
      ∧ requested (trace w')
        = requested (trace (Sample.world_at 0 Sample.no_faults))
          ++ urls_followed Sample.cfg (start_url Sample.cfg) [Sample.first_page_data]
      ∧ length (requested (trace w'))
        = (length (requested (trace (Sample.world_at 0 Sample.no_faults)))
           + length [Sample.first_page] + 1)%nat.
Proof.
  split; [exact sample_first_page_full |].
  split; [exact sample_second_page_last |].
  exact (fetch_accumulates_every_page Sample.cfg [Sample.first_page]
           [Sample.first_page_data] Sample.second_page [VDict Sample.msft] []
           (Sample.world_at 0 Sample.no_faults)
           sample_first_page_full sample_second_page_last).
Defined.

Lemma partial_batch_is_written_witness :
  Forall2 full_page [Sample.first_page] [Sample.first_page_data]
  ∧ [Sample.first_page] ≠ []
  ∧ aborting Sample.error_page
  ∧ ∃ w1,
      fetch_loop Sample.cfg ([Sample.first_page] ++ Sample.error_page :: [])
        (VStr (start_url Sample.cfg)) [] (Sample.world_at 0 Sample.no_faults)
      = (Ok (concat (pg_results <$> [Sample.first_page_data])), [], w1)
      ∧ concat (pg_results <$> [Sample.first_page_data]) ≠ []
      ∧ tables (run_stock_job Sample.cfg ([Sample.first_page] ++ Sample.error_page :: [])
                  (Sample.world_at 0 Sample.no_faults)).2 !! "stock_tickers"
        = Some [mapped "1970-01-01" Sample.aapl <$> cols_order].
Proof.
  split; [exact sample_first_page_full |].
  split; [discriminate |].
  split; [exact sample_error_page_aborts |].
  destruct (partial_batch_is_written Sample.cfg [Sample.first_page]
              [Sample.first_page_data] Sample.error_page []
              (Sample.world_at 0 Sample.no_faults)
              sample_first_page_full ltac:(discriminate) sample_error_page_aborts)
    as (w1 & Hfetch & Hacc & _).
  exists w1. split; [exact Hfetch |]. split; [exact Hacc |].
  vm_compute. reflexivity.
Defined.

Lemma load_date_is_date_at_write_witness :
  (mapped "1970-01-02" Sample.aapl <$> cols_order)
    ∈ inserted (new_events (Sample.world_at Sample.before_midnight Sample.no_faults)
        (run_stock_job Sample.cfg [Sample.first_page; Sample.second_page]
           (Sample.world_at Sample.before_midnight Sample.no_faults)).2)
  ∧ field "ds" (mapped "1970-01-02" Sample.aapl <$> cols_order)
    = Some (VStr (Calendar.isoformat (Calendar.date_of (Sample.before_midnight + 15)))).
Proof.
  assert ((mapped "1970-01-02" Sample.aapl <$> cols_order)
    ∈ inserted (new_events (Sample.world_at Sample.before_midnight Sample.no_faults)
        (run_stock_job Sample.cfg [Sample.first_page; Sample.second_page]
           (Sample.world_at Sample.before_midnight Sample.no_faults)).2)) as Hin.
  { vm_compute. left. }
  split; [exact Hin |].
  exact (load_date_is_date_at_write Sample.cfg [Sample.first_page; Sample.second_page]
           (Sample.world_at Sample.before_midnight Sample.no_faults) _ Hin).
Defined.

Lemma mapped_cell_coerced_witness :
  cols_order !! 6%nat = Some "active"
  ∧ "active" ≠ "ds"
  ∧ ∃ row,
      build_row "2026-11-04" (VDict Sample.aapl) = Ok row
      ∧ row !! 6%nat = Some (VBool true).
Proof.
  split; [reflexivity |]. split; [discriminate |].
  exact (mapped_cell_coerced "2026-11-04" Sample.aapl 6 "active" eq_refl
           ltac:(discriminate)).
Defined.

Lemma writer_logs_and_reraises_witness :
  [VDict Sample.aapl] ≠ []
  ∧ failing_step Sample.cfg [VDict Sample.aapl]
      (Sample.world_at 0 Sample.connect_refused) Sample.refused
  ∧ ∃ w1,
      write_to_snowflake Sample.cfg [VDict Sample.aapl]
        (Sample.world_at 0 Sample.connect_refused)
      = (Raise Sample.refused, emit (error_line Sample.refused) w1).
Proof.
  assert (failing_step Sample.cfg [VDict Sample.aapl]
            (Sample.world_at 0 Sample.connect_refused) Sample.refused) as Hstep
    by (apply fails_connect; reflexivity).
  split; [discriminate |]. split; [exact Hstep |].
  exact (proj1 (writer_logs_and_reraises Sample.cfg [VDict Sample.aapl]
                  (Sample.world_at 0 Sample.connect_refused) ltac:(discriminate))
           Sample.refused Hstep).
Defined.

Lemma load_date_ignores_record_witness :
  delete "ds" Sample.aapl = delete "ds" Sample.aapl_other_ds
  ∧ build_row "2026-11-04" (VDict Sample.aapl)
    = build_row "2026-11-04" (VDict Sample.aapl_other_ds)
  ∧ ∃ row,
      build_row "2026-11-04" (VDict Sample.aapl) = Ok row
      ∧ field "ds" row = Some (VStr "2026-11-04").
Proof.
  assert (delete "ds" Sample.aapl = delete "ds" Sample.aapl_other_ds) as Heq
    by (vm_compute; reflexivity).
  split; [exact Heq |].
  exact (load_date_ignores_record "2026-11-04" Sample.aapl Sample.aapl_other_ds Heq).
Defined.

Lemma missing_results_ends_pagination_witness :
  Sample.bare_page_dict !! "status" = Some (VStr "OK")
  ∧ Sample.bare_page_dict !! "results" = None
  ∧ ∃ w1,
      fetch_loop Sample.cfg
        ([Sample.first_page] ++ Body "" (Some (VDict Sample.bare_page_dict)) :: [])
        (VStr (start_url Sample.cfg)) [] (Sample.world_at 0 Sample.no_faults)
      = (Ok (concat (pg_results <$> [Sample.first_page_data])), [], w1)
      ∧ fetch_loop Sample.cfg
          ([Sample.first_page]
           ++ Body "" (Some (VDict (<["results" := VList []]> Sample.bare_page_dict))) :: [])
          (VStr (start_url Sample.cfg)) [] (Sample.world_at 0 Sample.no_faults)
        = (Ok (concat (pg_results <$> [Sample.first_page_data])), [], w1)
      ∧ run_stock_job Sample.cfg
          ([Sample.first_page] ++ Body "" (Some (VDict Sample.bare_page_dict)) :: [])
          (Sample.world_at 0 Sample.no_faults)
        = (let '(r, w2) := write_and_report Sample.cfg
                             (concat (pg_results <$> [Sample.first_page_data])) w1 in
           (r, [], w2)).
Proof.
  split; [reflexivity |]. split; [reflexivity |].
  exact (proj2 (proj2 (missing_results_ends_pagination Sample.cfg ""
                         Sample.bare_page_dict eq_refl eq_refl))
           [Sample.first_page] [Sample.first_page_data] []
           (Sample.world_at 0 Sample.no_faults) sample_first_page_full).
Defined.

(** *** End-to-end runs *)

(** One page with two records and no next-page link: two rows are inserted
    with the date of the day, and the job reports two rows. *)
Example run_one_page :
  let page := Body "" (Some (VDict (<["status" := VStr "OK"]>
                (<["results" := VList [VDict Sample.aapl; VDict Sample.msft]]> ∅)))) in
  let out := run_stock_job Sample.cfg [page] (Sample.world_at 0 Sample.no_faults) in
  out.1 = (Ok tt, [])
  ∧ tables out.2 !! "stock_tickers"
    = Some [ [VStr "AAPL"; VStr "Apple Inc."; VNone; VNone; VNone; VNone; VBool true;
              VNone; VNone; VNone; VNone; VNone; VStr "1970-01-01"];
             [VStr "MSFT"; VNone; VNone; VNone; VNone; VNone; VBool true;
              VNone; VNone; VNone; VNone; VNone; VStr "1970-01-01"] ]
  ∧ last (trace out.2)
    = Some (EvPrint [PStr "Wrote "; PInt 2; PStr " rows to Snowflake table ";
                     PStr "stock_tickers"])
  ∧ open_connections out.2 = 0%nat.
Proof. vm_compute. repeat split. Qed.

(** Status "ERROR" on the first page: nothing is accumulated, the writer is
    not reached by any driver call, and no table exists afterwards. *)
Example run_error_first_page :
  let out := run_stock_job Sample.cfg [Sample.error_page]
               (Sample.world_at 0 Sample.no_faults) in
  out.1 = (Ok tt, [])
  ∧ driver_calls (trace out.2) = []
  ∧ tables out.2 = ∅
  ∧ last (trace out.2)
    = Some (EvPrint [PStr "Wrote "; PInt 0; PStr " rows to Snowflake table ";
                     PStr "stock_tickers"]).
Proof. vm_compute. repeat split. Qed.

(** A job that fails (the warehouse refuses the connection) under the
    scheduler: the failure is printed with its time and the loop goes on
    sleeping. *)
Example scheduler_survives_failure :
  let out := Scheduler.main Sample.cfg 3 [Sample.first_page; Sample.second_page]
               (Sample.world_at 32399 Sample.connect_refused) in
  out.1.1 = Ok (86400 + 32400)
  ∧ drop 9 (trace out.2)
    = [ EvPrint [PStr "Snowflake error: "; PExn Sample.refused];
        EvPrint [PStr " Stock data sync failed at "; PTime 32474; PStr ": ";
                 PExn Sample.refused];
        EvSleep 60; EvSleep 60 ].
Proof. vm_compute. repeat split. Qed.


(** ** Further properties of the code *)

Import Edges.

Section LoopEdges.
Variable cfg : config.

(** The loop raises at a crashing response, once it has requested it. *)
Lemma fetch_loop_crash r e rest url acc w :
  crashing r e →
  url ≠ "" →
  ∃ w', fetch_loop cfg (r :: rest) (VStr url) acc w = (Raise e, rest, w').
Proof.
  intros Hc Hu. cbn [fetch_loop consumed tail]. rewrite (truthy_str url Hu). cbn [negb].
  unfold page, bind, print, requests_get, lift, get, get_default, ret, sleep.
  destruct Hc as [e | text v Hv | text d rs v Hs Hr Hne Hn Ht Hstr Hlist]; cbn [fst snd].
  - by eexists.
  - destruct v; try (by eexists). by destruct (Hv d).
  - rewrite Hs. simpl. rewrite Hr. simpl.
    destruct rs as [| x rs]; [done |]. simpl. rewrite Hn. simpl. rewrite Ht.
    unfold iadd_error.
    destruct v; try (by eexists); [by destruct (Hstr s) | by destruct (Hlist l)].
Qed.

Lemma after_pages_last_url rs ps w :
  Forall2 full_page rs ps → (after_pages cfg ps (start_url cfg) w).1 ≠ "".
Proof.
  intros Hfull. apply after_pages_url_nonempty; [apply start_url_nonempty |].
  by eapply full_pages_next.
Qed.

End LoopEdges.

(** X1.  When the loop raises after some full pages (the transport fails,
    the body is JSON but not an object, or the next-page value cannot take
    the key), the job raises that exception and the writer is never
    reached: no call into the driver, the tables as before.  The records of
    the pages read so far are lost. *)
Theorem crash_after_pages_loses_batch :
  ∀ (cfg : config) (rs : list response) (ps : list page_data) (bad : response)
    (e : exn) (rest : list response) (w : world),
    Forall2 full_page rs ps →
    crashing bad e →
    ∃ w1,
      run_stock_job cfg (rs ++ bad :: rest) w = (Raise e, rest, w1)
      ∧ driver_calls (new_events w w1) = []
      ∧ tables w1 = tables w.
Proof.
  intros cfg rs ps bad e rest w Hfull Hcrash.
  destruct (fetch_loop_crash cfg bad e rest (after_pages cfg ps (start_url cfg) w).1
              ([] ++ concat (pg_results <$> ps))
              (after_pages cfg ps (start_url cfg) w).2 Hcrash
              (after_pages_last_url cfg rs ps w Hfull)) as [w1 Hlast].
  assert (fetch_loop cfg (rs ++ bad :: rest) (VStr (start_url cfg)) [] w
          = (Raise e, rest, w1)) as Hfetch.
  { by rewrite (fetch_loop_full cfg rs ps _ _ _ _ Hfull (start_url_nonempty cfg)). }
  destruct (fetch_loop_frame cfg _ _ _ _ _ _ _ Hfetch) as (Ht & _ & _ & δ & Hδ & Hq & _).
  exists w1. split; [unfold run_stock_job; by rewrite Hfetch |].
  split; [by rewrite (new_events_app w w1 δ) | exact Ht].
Qed.

(** X2.  A page with status "OK" whose result value is false in a test
    (null, an empty list, an empty text, zero, an empty object) or is
    missing ends the pagination without an exception: the records of the
    full pages before it go to the writer. *)
Theorem falsy_results_end_pagination :
  ∀ (cfg : config) (rs : list response) (ps : list page_data)
    (text : string) (d : gmap string value) (rest : list response) (w : world),
    Forall2 full_page rs ps →
    d !! "status" = Some (VStr "OK") →
    truthy (default (VList []) (d !! "results")) = false →
    ∃ w1,
      fetch_loop cfg (rs ++ Body text (Some (VDict d)) :: rest)
        (VStr (start_url cfg)) [] w
      = (Ok (concat (pg_results <$> ps)), rest, w1)
      ∧ last (trace w1) = Some (EvPrint [PStr "No results found on this page"])
      ∧ run_stock_job cfg (rs ++ Body text (Some (VDict d)) :: rest) w
        = (let '(r, w2) := write_and_report cfg (concat (pg_results <$> ps)) w1 in
           (r, rest, w2)).
Proof.
  intros cfg rs ps text d rest w Hfull Hs Hr.
  rewrite (fetch_loop_full cfg rs ps _ _ _ _ Hfull (start_url_nonempty cfg)).
  cbn [fetch_loop consumed tail].
  rewrite (truthy_str _ (after_pages_last_url cfg rs ps w Hfull)). cbn [negb].
  unfold page, bind, print, requests_get, lift, get, get_default, ret. cbn [fst snd].
  rewrite Hs. simpl. rewrite Hr. simpl.
  eexists. split; [reflexivity |]. split.
  - cbn [emit trace]. apply last_snoc.
  - unfold run_stock_job.
    rewrite (fetch_loop_full cfg rs ps _ _ _ _ Hfull (start_url_nonempty cfg)).
    cbn [fetch_loop consumed tail].
    rewrite (truthy_str _ (after_pages_last_url cfg rs ps w Hfull)). cbn [negb].
    unfold page, bind, print, requests_get, lift, get, get_default, ret. cbn [fst snd].
    rewrite Hs. simpl. rewrite Hr. simpl. reflexivity.
Qed.

(** X3.  The loop pauses fifteen seconds once for each next-page link it
    follows and not after the last page: with [n] full pages and a last
    page the clock has advanced by [15 * n] when the loop ends. *)
Theorem one_pause_per_followed_link :
  ∀ (cfg : config) (rs : list response) (ps : list page_data)
    (r_last : response) (rs_last : list value) (rest : list response) (w : world),
    Forall2 full_page rs ps →
    last_page r_last rs_last →
    ∃ tickers w',
      fetch_loop cfg (rs ++ r_last :: rest) (VStr (start_url cfg)) [] w
      = (Ok tickers, rest, w')
      ∧ now w' = now w + 15 * Z.of_nat (length rs)
      ∧ slept (new_events w w') = 15 * Z.of_nat (length rs).
Proof.
  intros cfg rs ps r_last rs_last rest w Hfull Hlast.
  destruct (fetch_loop_last cfg r_last rs_last rest
              (after_pages cfg ps (start_url cfg) w).1
              ([] ++ concat (pg_results <$> ps))
              (after_pages cfg ps (start_url cfg) w).2 Hlast
              (after_pages_last_url cfg rs ps w Hfull)) as (w' & Hrun & _ & _ & Hnow).
  assert (fetch_loop cfg (rs ++ r_last :: rest) (VStr (start_url cfg)) [] w
          = (Ok ([] ++ concat (pg_results <$> ps) ++ rs_last), rest, w')) as Hfetch.
  { by rewrite (fetch_loop_full cfg rs ps _ _ _ _ Hfull (start_url_nonempty cfg)). }
  assert (now w' = now w + 15 * Z.of_nat (length rs)) as Hclock.
  { rewrite Hnow, after_pages_now. by rewrite (Forall2_length _ _ _ Hfull). }
  destruct (fetch_loop_frame cfg _ _ _ _ _ _ _ Hfetch) as (_ & _ & _ & δ & Hδ & _ & Hn).
  do 2 eexists. split; [exact Hfetch |]. split; [exact Hclock |].
  rewrite (new_events_app w w' δ) by done. lia.
Qed.

Section KeyedRequests.
Variable cfg : config.

Lemma append_assoc (a b c : string) : ((a ++ b) ++ c)%string = (a ++ (b ++ c))%string.
Proof.
  induction a as [| x a IH]; [done |].
  change (String x ((a ++ b) ++ c) = String x (a ++ (b ++ c)))%string.
  by rewrite IH.
Qed.

Lemma start_url_keyed : url_keyed (api_key_suffix cfg) (VStr (start_url cfg)).
Proof.
  exists ("https://api.polygon.io/v3/reference/tickers"
          ++ "?market=stocks&active=true&order=asc&limit=" ++ str_int LIMIT
          ++ "&sort=ticker")%string.
  unfold start_url. by rewrite !append_assoc.
Qed.

Ltac keyed_leaf :=
  intros [= <- <-]; eexists; cbn [trace emit advance]; rewrite <- ?app_assoc;
  (split; [reflexivity |]); (split; [reflexivity |]); try done.

(** One pass of the loop sends at most one request, for the URL it was
    given, and hands on a URL that ends with the key. *)
Lemma page_requests next url acc w r w' :
  page cfg next url acc w = (r, w') →
  ∃ δ, trace w' = trace w ++ δ
       ∧ requested δ = match url with VStr u => [u] | _ => [] end
       ∧ ∀ url' t, r = Ok (Continue url' t) → truthy url' = true →
                   url_keyed (api_key_suffix cfg) url'.
Proof.
  unfold page, bind, print, requests_get, lift, raise, ret, sleep.
  destruct url as [| b | n | f | u | l | d]; try keyed_leaf.
  destruct next as [[e | text [data |]] |]; cbn [fst snd]; try keyed_leaf.
  destruct (get data "status") as [status |]; [| keyed_leaf].
  destruct (ne_str status "OK").
  { destruct (get data "error"); keyed_leaf. }
  destruct (get_default data "results" (VList [])) as [results |]; [| keyed_leaf].
  destruct (negb (truthy results)); [keyed_leaf |].
  destruct (iterate results); [| keyed_leaf].
  destruct (get data "next_url") as [url' |]; [| keyed_leaf].
  destruct (truthy url') eqn:Ht.
  - destruct url' as [| b | n | f | u' | l | d]; cbn [iadd_str]; keyed_leaf.
    + intros ? ? [= <- <-] _. by eexists.
    + by intros ? ? [= <- <-] _.
  - keyed_leaf. intros ? ? [= <- <-]. congruence.
Qed.

Lemma fetch_loop_requests resps : ∀ url acc w r rest w',
  url_keyed (api_key_suffix cfg) url →
  fetch_loop cfg resps url acc w = (r, rest, w') →
  ∃ δ, trace w' = trace w ++ δ ∧ Forall (carries_key cfg) (requested δ).
Proof.
  assert (∀ url, url_keyed (api_key_suffix cfg) url →
                 Forall (carries_key cfg) match url with VStr u => [u] | _ => [] end)
    as Hone.
  { intros url Hk. destruct url; try constructor; [exact Hk | constructor]. }
  induction resps as [| resp resps IH]; intros url acc w r rest w' Hk; cbn [fetch_loop].
  - destruct (negb (truthy url));
      [intros [= <- <- <-]; exists []; by rewrite app_nil_r |].
    destruct (page cfg None url acc w) as [[[t | u t] | e] w1] eqn:Hp;
      destruct (page_requests _ _ _ _ _ _ Hp) as (δ & Hδ & Hr & _);
      intros [= <- <- <-]; exists δ; rewrite Hr; eauto.
  - destruct (truthy url) eqn:Ht; cbn [negb];
      [| intros [= <- <- <-]; exists []; by rewrite app_nil_r].
    destruct (page cfg (Some resp) url acc w) as [[[t | u t] | e] w1] eqn:Hp;
      destruct (page_requests _ _ _ _ _ _ Hp) as (δ & Hδ & Hr & Hnext).
    + intros [= <- <- <-]; exists δ; rewrite Hr; eauto.
    + cbn [fetch_loop] in IH. intros Hl.
      destruct (truthy u) eqn:Hu.
      * destruct (IH u t w1 r rest w' (Hnext u t eq_refl Hu) Hl) as (δ' & Hδ' & Hr').
        exists (δ ++ δ'). rewrite Hδ', Hδ, <- app_assoc. split; [done |].
        rewrite requested_app, Hr. apply Forall_app. eauto.
      * destruct resps; cbn [fetch_loop] in Hl; rewrite Hu in Hl; cbn [negb] in Hl;
          injection Hl as <- <- <-; exists δ; rewrite Hr; eauto.
    + intros [= <- <- <-]; exists δ; rewrite Hr; eauto.
Qed.

(** The writer sends no request. *)
Lemma write_body_no_request tickers w r w' :
  write_body cfg tickers w = (r, w') →
  ∃ δ, trace w' = trace w ++ δ ∧ requested δ = [].
Proof.
  unfold write_body, bind, driver, print, today_isoformat, lift, ret.
  world_simpl.
  split_fault; world_simpl; [writer_leaf; done |].
  split_fault; world_simpl; [writer_leaf; done |].
  split_fault; world_simpl; [writer_leaf; done |].
  destruct (build_rows _ tickers) as [rows |]; [| writer_leaf; done].
  destruct rows as [| row rows].
  { repeat (split_fault; world_simpl). all: writer_leaf; done. }
  repeat (split_fault; world_simpl). all: writer_leaf; done.
Qed.

End KeyedRequests.

(** X4.  Whatever the network answers, every request of a run is for a URL
    that ends with the API key parameter: the start URL is built with it and
    it is appended to each next-page link before the link is requested. *)
Theorem every_request_carries_key :
  ∀ (cfg : config) (resps : list response) (w : world),
    Forall (carries_key cfg)
           (requested (new_events w (run_stock_job cfg resps w).2)).
Proof.
  intros cfg resps w. unfold run_stock_job.
  destruct (fetch_loop cfg resps (VStr (start_url cfg)) [] w)
    as [[[acc | e] rest] w1] eqn:Hf;
    destruct (fetch_loop_requests cfg _ _ _ _ _ _ _ (start_url_keyed cfg) Hf)
      as (δ & Hδ & Hreq).
  2:{ cbn [snd]. by rewrite (new_events_app w w1 δ). }
  unfold write_and_report, bind, print.
  assert (∀ r w2, write_to_snowflake cfg acc w1 = (r, w2) →
                  ∃ δ', trace w2 = trace w1 ++ δ' ∧ requested δ' = []) as Hwrite.
  { intros r w2. destruct acc as [| t acc].
    - intros [= <- <-]. by eexists.
    - rewrite write_nonempty. unfold try_except, bind, print, raise.
      destruct (write_body cfg (t :: acc) w1) as [[[] | e] wb] eqn:Hb;
        destruct (write_body_no_request cfg _ _ _ _ Hb) as (δ' & Hδ' & Hr');
        intros [= <- <-].
      + by exists δ'.
      + eexists. cbn [emit trace]. rewrite Hδ', <- app_assoc.
        split; [reflexivity |]. by rewrite requested_app, Hr'. }
  destruct (write_to_snowflake cfg acc w1) as [[[] | e] w2] eqn:Hw;
    destruct (Hwrite _ _ eq_refl) as (δ' & Hδ' & Hr'); cbn [snd].
  - rewrite (new_events_app w _ (δ ++ δ' ++ [EvPrint [PStr "Wrote ";
               PInt (Z.of_nat (length acc)); PStr " rows to Snowflake table ";
               PStr (SF_TABLE cfg)]])).
    + rewrite !requested_app, Hr'. cbn. by rewrite app_nil_r.
    + cbn [emit trace]. by rewrite Hδ', Hδ, <- !app_assoc.
  - rewrite (new_events_app w _ (δ ++ δ')).
    + by rewrite requested_app, Hr', app_nil_r.
    + by rewrite Hδ', Hδ, <- app_assoc.
Qed.

(** X5.  When the very first response makes the loop stop (it is not JSON,
    its status is not "OK", or its result list is empty), the job returns
    normally having written nothing: no call into the driver, the tables as
    before, and a report of zero rows as its last line. *)
Theorem stop_on_first_page_writes_nothing :
  ∀ (cfg : config) (first : response) (rest : list response) (w : world),
    aborting first ∨ last_page first [] →
    ∃ w',
      run_stock_job cfg (first :: rest) w = (Ok tt, rest, w')
      ∧ driver_calls (new_events w w') = []
      ∧ tables w' = tables w
      ∧ last (trace w') = Some (report_line cfg 0).
Proof.
  intros cfg first rest w Hstop.
  assert (∃ w1, fetch_loop cfg (first :: rest) (VStr (start_url cfg)) [] w
                = (Ok [], rest, w1)) as [w1 Hfetch].
  { destruct Hstop as [Ha | Hl].
    - destruct (fetch_loop_abort cfg first rest _ [] w Ha (start_url_nonempty cfg))
        as (w1 & H1 & _). by exists w1.
    - destruct (fetch_loop_last cfg first [] rest _ [] w Hl (start_url_nonempty cfg))
        as (w1 & H1 & _). by exists w1. }
  destruct (fetch_loop_frame cfg _ _ _ _ _ _ _ Hfetch) as (Ht & _ & _ & δ & Hδ & Hq & _).
  eexists. split; [unfold run_stock_job; rewrite Hfetch; reflexivity |].
  cbn [emit trace tables]. split; [| split; [exact Ht | apply last_snoc]].
  rewrite (new_events_app w _ (δ ++ [EvPrint [PStr "No tickers to write"];
                                      report_line cfg 0])).
  - by rewrite driver_calls_app, Hq.
  - cbn [emit trace]. by rewrite Hδ, <- !app_assoc.
Qed.

Section WriterEdges.
Variable cfg : config.

Lemma traverse_length {A B} (f : A → result B) (l : list A) :
  ∀ ys, traverse f l = Ok ys → length ys = length l.
Proof.
  induction l as [| x l IH]; intros ys.
  - by intros [= <-].
  - cbn [traverse]. destruct (f x); [| discriminate].
    destruct (traverse f l) as [ys' |]; [| discriminate].
    intros [= <-]. cbn [length]. by rewrite (IH ys').
Qed.

(** The first record that is not an object stops the building of rows. *)
Lemma build_rows_first_bad ds ts v more :
  (∀ d, v ≠ VDict d) →
  build_rows ds ((VDict <$> ts) ++ v :: more)
  = Raise (AttributeError (type_name v) "get").
Proof.
  intros Hv. unfold build_rows. induction ts as [| t ts IH].
  - cbn [fmap list_fmap app traverse].
    destruct v; try reflexivity. by destruct (Hv d).
  - cbn [fmap list_fmap app traverse]. rewrite build_row_dict.
    change (list_fmap _ _ VDict ts) with (VDict <$> ts). by rewrite IH.
Qed.

(** A [try] block that goes through has built a row for every record and
    handed exactly these rows to the warehouse. *)
Lemma write_body_ok tickers w w' :
  write_body cfg tickers w = (Ok tt, w') →
  ∃ rows δ,
    build_rows (Calendar.isoformat (Calendar.date_of (now w))) tickers = Ok rows
    ∧ trace w' = trace w ++ δ
    ∧ inserted δ = rows.
Proof.
  unfold write_body, bind, driver, print, today_isoformat, lift, ret.
  world_simpl.
  split_fault; world_simpl; [discriminate |].
  split_fault; world_simpl; [discriminate |].
  split_fault; world_simpl; [discriminate |].
  destruct (build_rows _ tickers) as [rows |]; [| discriminate].
  destruct rows as [| row rows].
  { repeat (split_fault; world_simpl); try discriminate.
    intros [= <-]. exists []. eexists. split; [done |]. world_simpl.
    rewrite <- !app_assoc. split; [reflexivity | done]. }
  repeat (split_fault; world_simpl); try discriminate.
  intros [= <-]. exists (row :: rows). eexists. split; [done |]. world_simpl.
  rewrite <- !app_assoc. split; [reflexivity |].
  unfold inserted. simpl. by rewrite app_nil_r.
Qed.

End WriterEdges.

(** X6.  With a driver that raises nothing, writing a non-empty batch of
    records makes exactly seven calls, in this order: connect, cursor, the
    create-table statement, one [executemany] with the insert statement and
    all the rows, commit, close of the cursor, close of the connection; the
    connection count is afterwards what it was. *)
Theorem write_calls_in_order :
  ∀ (cfg : config) (ts : list (gmap string value)) (w : world),
    (∀ c, faults w c = None) →
    ts ≠ [] →
    ∃ w',
      write_to_snowflake cfg (VDict <$> ts) w = (Ok tt, w')
      ∧ driver_calls (new_events w w')
        = success_calls cfg
            (rows_of (Calendar.isoformat (Calendar.date_of (now w))) ts)
      ∧ open_connections w' = open_connections w.
Proof.
  intros cfg ts w Hf Hne. destruct ts as [| t ts]; [done |].
  change (VDict <$> t :: ts) with (VDict t :: (VDict <$> ts)).
  rewrite write_nonempty.
  change (VDict t :: (VDict <$> ts)) with (VDict <$> t :: ts).
  unfold try_except, write_body, bind, driver, print, today_isoformat, lift, ret.
  world_simpl. repeat (rewrite !Hf; world_simpl).
  rewrite build_rows_dicts.
  cbn [fmap list_fmap]. world_simpl. repeat (rewrite !Hf; world_simpl).
  eexists. split; [reflexivity |]. world_simpl.
  rewrite (proj2 (proj2 (proj2 (create_if_missing_frame _ _)))). world_simpl.
  split; [| done].
  unfold new_events. world_simpl. rewrite <- !app_assoc, drop_app_length.
  reflexivity.
Qed.

(** X7.  Nothing is deduplicated: writing the same batch twice leaves the
    target table with the rows it had, followed by the rows of the batch,
    followed by the same rows again. *)
Theorem write_twice_duplicates_rows :
  ∀ (cfg : config) (ts : list (gmap string value)) (w : world),
    (∀ c, faults w c = None) →
    ts ≠ [] →
    ∃ w1 w2,
      write_to_snowflake cfg (VDict <$> ts) w = (Ok tt, w1)
      ∧ write_to_snowflake cfg (VDict <$> ts) w1 = (Ok tt, w2)
      ∧ tables w2 !! SF_TABLE cfg
        = Some (default [] (tables w !! SF_TABLE cfg)
                ++ rows_of (Calendar.isoformat (Calendar.date_of (now w))) ts
                ++ rows_of (Calendar.isoformat (Calendar.date_of (now w))) ts).
Proof.
  intros cfg ts w Hf Hne.
  destruct (write_to_snowflake_ok cfg ts w Hf Hne) as (w1 & H1 & Ht1 & _ & _ & Hn1 & Hf1).
  destruct (write_to_snowflake_ok cfg ts w1) as (w2 & H2 & Ht2 & _); [| done |].
  { intros c. by rewrite Hf1. }
  exists w1, w2. split; [done |]. split; [done |].
  rewrite Ht2, Ht1, Hn1. unfold rows_of. simpl. by rewrite <- app_assoc.
Qed.

Ltac no_such_call :=
  repeat split; intros Hin;
  repeat (apply elem_of_cons in Hin as [Hin | Hin]; [discriminate Hin |]);
  by apply elem_of_nil in Hin.

(** X8.  There is no [finally]: when the create-table statement or the
    insert raises after the connection was opened, the writer raises with
    the connection still open.  Neither close nor commit is called. *)
Theorem failed_statement_leaves_connection_open :
  ∀ (cfg : config) (tickers : list value) (w : world) (e : exn),
    tickers ≠ [] →
    faults w (connect_call cfg) = None →
    failing_step cfg tickers w e →
    ∃ w' calls,
      write_to_snowflake cfg tickers w = (Raise e, w')
      ∧ open_connections w' = S (open_connections w)
      ∧ driver_calls (new_events w w') = connect_call cfg :: Cursor :: calls
      ∧ (Commit ∉ calls) ∧ (CursorClose ∉ calls) ∧ (ConnClose ∉ calls).
Proof.
  intros cfg [| t tickers] w e Hne Hconn Hstep; [done |].
  rewrite write_nonempty.
  destruct Hstep as [Hc | Hc Hcur Hcreate | rows Hc Hcur Hcreate Hrows Hins];
    [congruence | |];
    unfold connect_call in *;
    unfold try_except, write_body, bind, driver, print, today_isoformat, lift, ret, raise;
    world_simpl; rewrite Hc; world_simpl; rewrite Hcur; world_simpl; rewrite Hcreate;
    world_simpl.
  - do 2 eexists. split; [reflexivity |]. world_simpl. split; [done |].
    unfold new_events. world_simpl. rewrite <- !app_assoc, drop_app_length.
    split; [reflexivity |]. no_such_call.
  - rewrite Hrows.
    destruct rows as [| row rows]; [by apply build_rows_nonempty in Hrows |].
    world_simpl. rewrite Hins.
    do 2 eexists. split; [reflexivity |]. world_simpl.
    rewrite (proj2 (proj2 (proj2 (create_if_missing_frame _ _)))). world_simpl.
    split; [done |].
    unfold new_events. world_simpl. rewrite <- !app_assoc, drop_app_length.
    split; [reflexivity |]. no_such_call.
Qed.

(** X9.  One record that is not an object fails the whole batch: with a
    driver that raises nothing the writer connects and creates the table,
    then raises the [AttributeError] of the first such record; nothing is
    handed to [executemany], so the rows built from the records before it are
    not written either. *)
Theorem non_object_record_fails_batch :
  ∀ (cfg : config) (ts : list (gmap string value)) (v : value)
    (more : list value) (w : world),
    (∀ c, faults w c = None) →
    (∀ d, v ≠ VDict d) →
    ∃ w',
      write_to_snowflake cfg ((VDict <$> ts) ++ v :: more) w
      = (Raise (AttributeError (type_name v) "get"), w')
      ∧ inserted (new_events w w') = []
      ∧ tables w' !! SF_TABLE cfg = Some (default [] (tables w !! SF_TABLE cfg))
      ∧ last (trace w')
        = Some (error_line (AttributeError (type_name v) "get")).
Proof.
  intros cfg ts v more w Hf Hv.
  assert (∃ t0 rest0, (VDict <$> ts) ++ v :: more = t0 :: rest0) as (t0 & rest0 & Hcons).
  { destruct ts; by do 2 eexists. }
  pose proof (build_rows_first_bad
                (Calendar.isoformat (Calendar.date_of (now w))) ts v more Hv) as Hbad.
  rewrite Hcons in *. rewrite write_nonempty.
  unfold try_except, write_body, bind, driver, print, today_isoformat, lift, ret, raise.
  world_simpl. repeat (rewrite !Hf; world_simpl).
  rewrite Hbad.
  eexists. split; [reflexivity |]. world_simpl.
  split; [| split; [| apply last_snoc]].
  - unfold new_events. world_simpl. rewrite <- !app_assoc, drop_app_length.
    reflexivity.
  - by rewrite (proj1 (create_if_missing_tables _ _)).
Qed.

(** X10.  When the job returns normally, the number of rows it reports in
    its last line is the number of rows it handed to the warehouse. *)
Theorem reported_count_is_rows_written :
  ∀ (cfg : config) (resps rest : list response) (w w' : world),
    run_stock_job cfg resps w = (Ok tt, rest, w') →
    ∃ n : nat,
      last (trace w') = Some (report_line cfg (Z.of_nat n))
      ∧ length (inserted (new_events w w')) = n.
Proof.
  intros cfg resps rest w w'. unfold run_stock_job.
  destruct (fetch_loop cfg resps (VStr (start_url cfg)) [] w)
    as [[[acc | e] rest1] w1] eqn:Hf; [| discriminate].
  destruct (fetch_loop_frame cfg _ _ _ _ _ _ _ Hf) as (_ & _ & _ & δf & Hδf & Hq & _).
  unfold write_and_report, bind, print.
  destruct (write_to_snowflake cfg acc w1) as [[[] | e] w2] eqn:Hw; [| discriminate].
  intros [= <- <-]. exists (length acc).
  split; [cbn [emit trace]; apply last_snoc |].
  assert (∃ δw, trace w2 = trace w1 ++ δw ∧ length (inserted δw) = length acc)
    as (δw & Hδw & Hlen).
  { revert Hw. destruct acc as [| t acc].
    - intros [= <-]. by eexists.
    - rewrite write_nonempty. unfold try_except.
      destruct (write_body cfg (t :: acc) w1) as [[[] | e] wb] eqn:Hb.
      + intros [= <-].
        destruct (write_body_ok cfg _ _ _ Hb) as (rows & δ & Hrows & Hδ & Hins).
        exists δ. split; [done |]. rewrite Hins.
        by apply traverse_length in Hrows.
      + unfold bind, print, raise. discriminate. }
  rewrite (new_events_app w _ (δf ++ δw ++ [report_line cfg (Z.of_nat (length acc))])).
  - rewrite !inserted_app, (inserted_quiet δf Hq). cbn. by rewrite app_nil_r.
  - cbn [emit trace]. by rewrite Hδw, Hδf, <- !app_assoc.
Qed.

(** X11.  Fields of a record that the target schema does not name never
    reach the warehouse: two records that agree on the columns of the
    schema have the same row. *)
Theorem fields_outside_schema_are_dropped :
  ∀ (ds_value : string) (t1 t2 : gmap string value),
    (∀ col, col ∈ cols_order → col ≠ "ds" → t1 !! col = t2 !! col) →
    build_row ds_value (VDict t1) = build_row ds_value (VDict t2).
Proof.
  intros ds_value t1 t2 Hsame. rewrite !build_row_dict. f_equal.
  apply list_fmap_ext. intros i col Hi. unfold mapped.
  destruct (String.eqb_spec col "ds") as [| Hne]; [done |].
  rewrite (Hsame col); [done | | done].
  apply list_elem_of_lookup. by exists i.
Qed.

(** X12.  After the coercion no text that reads "true" or "false" in any
    case is left: whatever the coercion returns as text is another text. *)
Theorem coerce_leaves_no_boolean_text :
  ∀ (v : value) (s : string),
    coerce v = VStr s →
    same_word s "true" = false ∧ same_word s "false" = false.
Proof.
  intros v s. rewrite coerce_refines_spec.
  destruct v as [| b | n | f | s' | l | d]; try discriminate.
  unfold coerce_spec.
  destruct (same_word s' "true") eqn:Ht; [discriminate |].
  destruct (same_word s' "false") eqn:Hf; [discriminate |].
  by intros [= <-].
Qed.

Section Clock.
Variable cfg : config.

Ltac clock_leaf := intros [= <- <-]; cbn [emit advance now]; lia.

Lemma page_clock next url acc w r w' :
  page cfg next url acc w = (r, w') → now w ≤ now w'.
Proof.
  unfold page, bind, print, requests_get, lift, raise, ret, sleep.
  destruct url as [| b | n | f | u | l | d]; try clock_leaf.
  destruct next as [[e | text [data |]] |]; cbn [fst snd]; try clock_leaf.
  destruct (get data "status") as [status |]; [| clock_leaf].
  destruct (ne_str status "OK").
  { destruct (get data "error"); clock_leaf. }
  destruct (get_default data "results" (VList [])) as [results |]; [| clock_leaf].
  destruct (negb (truthy results)); [clock_leaf |].
  destruct (iterate results); [| clock_leaf].
  destruct (get data "next_url") as [url' |]; [| clock_leaf].
  destruct (truthy url'); [| clock_leaf].
  destruct (iadd_str url' (api_key_suffix cfg)); clock_leaf.
Qed.

Lemma fetch_loop_clock resps : ∀ url acc w r rest w',
  fetch_loop cfg resps url acc w = (r, rest, w') → now w ≤ now w'.
Proof.
  induction resps as [| resp resps IH]; intros url acc w r rest w'; cbn [fetch_loop].
  - destruct (negb (truthy url)); [by intros [= <- <- <-] |].
    destruct (page cfg None url acc w) as [[[t | u t] | e] w1] eqn:Hp;
      intros [= <- <- <-]; by eapply page_clock.
  - destruct (negb (truthy url)); [by intros [= <- <- <-] |].
    destruct (page cfg (Some resp) url acc w) as [[[t | u t] | e] w1] eqn:Hp.
    + intros [= <- <- <-]; by eapply page_clock.
    + intros Hl. apply page_clock in Hp. apply IH in Hl. lia.
    + intros [= <- <- <-]; by eapply page_clock.
Qed.

Lemma run_stock_job_clock resps w : now w ≤ now (run_stock_job cfg resps w).2.
Proof.
  unfold run_stock_job.
  destruct (fetch_loop cfg resps (VStr (start_url cfg)) [] w)
    as [[[acc | e] rest] w1] eqn:Hf; apply fetch_loop_clock in Hf; [| done].
  unfold write_and_report, bind, print.
  destruct (write_to_snowflake cfg acc w1) as [[[] | e] w2] eqn:Hw;
    destruct (write_to_snowflake_trace cfg _ _ _ _ Hw) as (Hn & _);
    cbn [snd emit now]; lia.
Qed.

Lemma scheduled_stock_job_clock resps w :
  now w ≤ now (Scheduler.scheduled_stock_job cfg resps w).2.
Proof.
  unfold Scheduler.scheduled_stock_job.
  pose proof (run_stock_job_clock resps
    (emit (EvPrint [PStr " Stock data sync started at "; PTime (now w)]) w)) as H.
  destruct (run_stock_job cfg resps _) as [[[[] | e] rest] w1]; exact H.
Qed.

End Clock.

(** X13.  The polling loop checks the schedule at most once a minute: after
    [n] passes the clock has advanced by at least [60 * n] seconds, however
    many jobs ran in them and however they ended. *)
Theorem polling_loop_sleeps_a_minute :
  ∀ (cfg : config) (n : nat) (next_run : Z) (resps : list response) (w : world),
    now w + 60 * Z.of_nat n
    ≤ now (Scheduler.main_loop cfg n next_run resps w).2.
Proof.
  intros cfg n. induction n as [| n IH]; intros next_run resps w.
  - cbn. lia.
  - cbn [Scheduler.main_loop]. unfold Scheduler.run_pending.
    destruct (next_run <=? now w).
    + pose proof (scheduled_stock_job_clock cfg resps w) as Hjob.
      destruct (Scheduler.scheduled_stock_job cfg resps w) as [[[[] | e] rest] w1] eqn:Hs.
      * cbn [sleep]. cbn [snd] in Hjob.
        etrans; [| apply IH]. cbn [advance emit now]. lia.
      * destruct (scheduled_stock_job_returns cfg resps w) as (? & ? & Hok).
        rewrite Hok in Hs. discriminate.
    + cbn [sleep]. etrans; [| apply IH]. cbn [advance emit now]. lia.
Qed.

(** X14.  A run that goes through: with full pages and a last page whose
    records are all objects, and a driver that raises nothing, the job
    returns normally and the target table holds what it held followed by one
    row per record fetched, in the order fetched, each stamped with the date
    of the clock after the pauses; the connection is closed again. *)
Theorem full_run_appends_every_record :
  ∀ (cfg : config) (rs : list response) (ps : list page_data)
    (r_last : response) (rs_last : list value) (ts : list (gmap string value))
    (rest : list response) (w : world),
    Forall2 full_page rs ps →
    last_page r_last rs_last →
    concat (pg_results <$> ps) ++ rs_last = VDict <$> ts →
    ts ≠ [] →
    (∀ c, faults w c = None) →
    ∃ w',
      run_stock_job cfg (rs ++ r_last :: rest) w = (Ok tt, rest, w')
      ∧ tables w' !! SF_TABLE cfg
        = Some (default [] (tables w !! SF_TABLE cfg)
                ++ rows_of (Calendar.isoformat
                              (Calendar.date_of (now w + 15 * Z.of_nat (length rs))))
                           ts)
      ∧ open_connections w' = open_connections w
      ∧ last (trace w') = Some (report_line cfg (Z.of_nat (length ts))).
Proof.
  intros cfg rs ps r_last rs_last ts rest w Hfull Hlast Hts Hne Hf.
  destruct (fetch_loop_last cfg r_last rs_last rest
              (after_pages cfg ps (start_url cfg) w).1
              ([] ++ concat (pg_results <$> ps))
              (after_pages cfg ps (start_url cfg) w).2 Hlast
              (after_pages_last_url cfg rs ps w Hfull)) as (w1 & Hrun & _ & _ & Hnow).
  assert (fetch_loop cfg (rs ++ r_last :: rest) (VStr (start_url cfg)) [] w
          = (Ok (VDict <$> ts), rest, w1)) as Hfetch.
  { rewrite (fetch_loop_full cfg rs ps _ _ _ _ Hfull (start_url_nonempty cfg)).
    rewrite Hrun. cbn [app]. by rewrite Hts. }
  assert (now w1 = now w + 15 * Z.of_nat (length rs)) as Hclock.
  { rewrite Hnow, after_pages_now. by rewrite (Forall2_length _ _ _ Hfull). }
  destruct (fetch_loop_frame cfg _ _ _ _ _ _ _ Hfetch) as (Ht & Ho & Hfl & _).
  destruct (write_to_snowflake_ok cfg ts w1) as (w2 & Hw & Htab & _ & Hopen & _);
    [intros c; by rewrite Hfl | done |].
  eexists. split.
  { unfold run_stock_job. rewrite Hfetch. unfold write_and_report, bind, print.
    rewrite Hw. reflexivity. }
  cbn [emit tables open_connections trace].
  rewrite Htab, Ht, Hclock, Hopen, Ho. repeat split.
  rewrite length_fmap. apply last_snoc.
Qed.

Lemma write_raise_logged cfg tickers w e w' :
  write_to_snowflake cfg tickers w = (Raise e, w') →
  ∃ wb, w' = emit (error_line e) wb.
Proof.
  destruct tickers as [| t tickers]; [discriminate |].
  rewrite write_nonempty. unfold try_except, bind, print, raise.
  destruct (write_body cfg (t :: tickers) w) as [[[] | e0] wb]; [discriminate |].
  intros [= -> <-]. by exists wb.
Qed.

(** X15.  When the job raises after the driver was called, the exception
    came out of the writer: the last line printed is the writer's error
    line for that very exception, and no report of rows written follows. *)
Theorem job_failure_in_writer_is_logged :
  ∀ (cfg : config) (resps rest : list response) (w w' : world) (e : exn),
    run_stock_job cfg resps w = (Raise e, rest, w') →
    driver_calls (new_events w w') ≠ [] →
    last (trace w') = Some (error_line e).
Proof.
  intros cfg resps rest w w' e. unfold run_stock_job.
  destruct (fetch_loop cfg resps (VStr (start_url cfg)) [] w)
    as [[[acc | e1] rest1] w1] eqn:Hf;
    destruct (fetch_loop_frame cfg _ _ _ _ _ _ _ Hf) as (_ & _ & _ & δf & Hδf & Hq & _).
  2:{ intros [= <- <- <-] Hcalls. by rewrite (new_events_app w w1 δf) in Hcalls. }
  unfold write_and_report, bind, print.
  destruct (write_to_snowflake cfg acc w1) as [[[] | e2] w2] eqn:Hw; [discriminate |].
  intros [= <- <- <-] _.
  destruct (write_raise_logged cfg _ _ _ _ Hw) as [wb ->].
  cbn [emit trace]. apply last_snoc.
Qed.

(** *** The further properties at the sample inputs *)

Lemma crash_after_pages_loses_batch_witness :
  Forall2 full_page [Sample.first_page] [Sample.first_page_data]
  ∧ crashing EdgeSample.offline EdgeSample.timed_out
  ∧ ∃ w1,
      run_stock_job Sample.cfg ([Sample.first_page] ++ EdgeSample.offline :: [])
        (Sample.world_at 0 Sample.no_faults)
      = (Raise EdgeSample.timed_out, [], w1)
      ∧ driver_calls (new_events (Sample.world_at 0 Sample.no_faults) w1) = []
      ∧ tables w1 = tables (Sample.world_at 0 Sample.no_faults).
Proof.
  split; [exact sample_first_page_full |].
  split; [apply crash_transport |].
  exact (crash_after_pages_loses_batch Sample.cfg [Sample.first_page]
           [Sample.first_page_data] EdgeSample.offline EdgeSample.timed_out []
           (Sample.world_at 0 Sample.no_faults) sample_first_page_full
           (crash_transport EdgeSample.timed_out)).
Defined.

Lemma falsy_results_end_pagination_witness :
  Forall2 full_page [Sample.first_page] [Sample.first_page_data]
  ∧ EdgeSample.null_results !! "status" = Some (VStr "OK")
  ∧ truthy (default (VList []) (EdgeSample.null_results !! "results")) = false
  ∧ ∃ w1,
      fetch_loop Sample.cfg
        ([Sample.first_page] ++ Body "" (Some (VDict EdgeSample.null_results)) :: [])
        (VStr (start_url Sample.cfg)) [] (Sample.world_at 0 Sample.no_faults)
      = (Ok (concat (pg_results <$> [Sample.first_page_data])), [], w1)
      ∧ last (trace w1) = Some (EvPrint [PStr "No results found on this page"])
      ∧ run_stock_job Sample.cfg
          ([Sample.first_page] ++ Body "" (Some (VDict EdgeSample.null_results)) :: [])
          (Sample.world_at 0 Sample.no_faults)
        = (let '(r, w2) := write_and_report Sample.cfg
                             (concat (pg_results <$> [Sample.first_page_data])) w1 in
           (r, [], w2)).
Proof.
  split; [exact sample_first_page_full |].
  split; [reflexivity |]. split; [reflexivity |].
  exact (falsy_results_end_pagination Sample.cfg [Sample.first_page]
           [Sample.first_page_data] "" EdgeSample.null_results []
           (Sample.world_at 0 Sample.no_faults) sample_first_page_full
           eq_refl eq_refl).
Defined.

Lemma one_pause_per_followed_link_witness :
  Forall2 full_page [Sample.first_page] [Sample.first_page_data]
  ∧ last_page Sample.second_page [VDict Sample.msft]
  ∧ ∃ tickers w',
      fetch_loop Sample.cfg ([Sample.first_page] ++ Sample.second_page :: [])
        (VStr (start_url Sample.cfg)) [] (Sample.world_at 0 Sample.no_faults)
      = (Ok tickers, [], w')
      ∧ now w' = now (Sample.world_at 0 Sample.no_faults)
                 + 15 * Z.of_nat (length [Sample.first_page])
      ∧ slept (new_events (Sample.world_at 0 Sample.no_faults) w')
        = 15 * Z.of_nat (length [Sample.first_page]).
Proof.
  split; [exact sample_first_page_full |].
  split; [exact sample_second_page_last |].
  exact (one_pause_per_followed_link Sample.cfg [Sample.first_page]
           [Sample.first_page_data] Sample.second_page [VDict Sample.msft] []
           (Sample.world_at 0 Sample.no_faults)
           sample_first_page_full sample_second_page_last).
Defined.

Lemma stop_on_first_page_writes_nothing_witness :
  (aborting Sample.error_page ∨ last_page Sample.error_page [])
  ∧ ∃ w',
      run_stock_job Sample.cfg (Sample.error_page :: [Sample.second_page])
        (Sample.world_at 0 Sample.no_faults)
      = (Ok tt, [Sample.second_page], w')
      ∧ driver_calls (new_events (Sample.world_at 0 Sample.no_faults) w') = []
      ∧ tables w' = tables (Sample.world_at 0 Sample.no_faults)
      ∧ last (trace w') = Some (report_line Sample.cfg 0).
Proof.
  split; [left; exact sample_error_page_aborts |].
  exact (stop_on_first_page_writes_nothing Sample.cfg Sample.error_page
           [Sample.second_page] (Sample.world_at 0 Sample.no_faults)
           (or_introl sample_error_page_aborts)).
Defined.

Lemma write_calls_in_order_witness :
  (∀ c, faults (Sample.world_at 0 Sample.no_faults) c = None)
  ∧ [Sample.aapl; Sample.msft] ≠ []
  ∧ ∃ w',
      write_to_snowflake Sample.cfg (VDict <$> [Sample.aapl; Sample.msft])
        (Sample.world_at 0 Sample.no_faults)
      = (Ok tt, w')
      ∧ driver_calls (new_events (Sample.world_at 0 Sample.no_faults) w')
        = success_calls Sample.cfg
            (rows_of (Calendar.isoformat (Calendar.date_of
                        (now (Sample.world_at 0 Sample.no_faults))))
                     [Sample.aapl; Sample.msft])
      ∧ open_connections w' = open_connections (Sample.world_at 0 Sample.no_faults).
Proof.
  split; [intros c; reflexivity |]. split; [discriminate |].
  exact (write_calls_in_order Sample.cfg [Sample.aapl; Sample.msft]
           (Sample.world_at 0 Sample.no_faults) (fun c => eq_refl)
           ltac:(discriminate)).
Defined.

Lemma write_twice_duplicates_rows_witness :
  (∀ c, faults (Sample.world_at 0 Sample.no_faults) c = None)
  ∧ [Sample.aapl] ≠ []
  ∧ ∃ w1 w2,
      write_to_snowflake Sample.cfg (VDict <$> [Sample.aapl])
        (Sample.world_at 0 Sample.no_faults) = (Ok tt, w1)
      ∧ write_to_snowflake Sample.cfg (VDict <$> [Sample.aapl]) w1 = (Ok tt, w2)
      ∧ tables w2 !! SF_TABLE Sample.cfg
        = Some (default [] (tables (Sample.world_at 0 Sample.no_faults)
                              !! SF_TABLE Sample.cfg)
                ++ rows_of (Calendar.isoformat (Calendar.date_of
                              (now (Sample.world_at 0 Sample.no_faults))))
                           [Sample.aapl]
                ++ rows_of (Calendar.isoformat (Calendar.date_of
                              (now (Sample.world_at 0 Sample.no_faults))))
                           [Sample.aapl]).
Proof.
  split; [intros c; reflexivity |]. split; [discriminate |].
  exact (write_twice_duplicates_rows Sample.cfg [Sample.aapl]
           (Sample.world_at 0 Sample.no_faults) (fun c => eq_refl)
           ltac:(discriminate)).
Defined.

Lemma failed_statement_leaves_connection_open_witness :
  [VDict Sample.aapl] ≠ []
  ∧ faults (Sample.world_at 0 EdgeSample.statement_refused) (connect_call Sample.cfg)
    = None
  ∧ failing_step Sample.cfg [VDict Sample.aapl]
      (Sample.world_at 0 EdgeSample.statement_refused) Sample.refused
  ∧ ∃ w' calls,
      write_to_snowflake Sample.cfg [VDict Sample.aapl]
        (Sample.world_at 0 EdgeSample.statement_refused)
      = (Raise Sample.refused, w')
      ∧ open_connections w'
        = S (open_connections (Sample.world_at 0 EdgeSample.statement_refused))
      ∧ driver_calls (new_events (Sample.world_at 0 EdgeSample.statement_refused) w')
        = connect_call Sample.cfg :: Cursor :: calls
      ∧ (Commit ∉ calls) ∧ (CursorClose ∉ calls) ∧ (ConnClose ∉ calls).
Proof.
  assert (failing_step Sample.cfg [VDict Sample.aapl]
            (Sample.world_at 0 EdgeSample.statement_refused) Sample.refused) as Hstep
    by (apply fails_create; reflexivity).
  split; [discriminate |]. split; [reflexivity |]. split; [exact Hstep |].
  exact (failed_statement_leaves_connection_open Sample.cfg [VDict Sample.aapl]
           (Sample.world_at 0 EdgeSample.statement_refused) Sample.refused
           ltac:(discriminate) eq_refl Hstep).
Defined.

Lemma non_object_record_fails_batch_witness :
  (∀ c, faults (Sample.world_at 0 Sample.no_faults) c = None)
  ∧ (∀ d, EdgeSample.stray ≠ VDict d)
  ∧ ∃ w',
      write_to_snowflake Sample.cfg
        ((VDict <$> [Sample.aapl]) ++ EdgeSample.stray :: [])
        (Sample.world_at 0 Sample.no_faults)
      = (Raise (AttributeError (type_name EdgeSample.stray) "get"), w')
      ∧ inserted (new_events (Sample.world_at 0 Sample.no_faults) w') = []
      ∧ tables w' !! SF_TABLE Sample.cfg
        = Some (default [] (tables (Sample.world_at 0 Sample.no_faults)
                              !! SF_TABLE Sample.cfg))
      ∧ last (trace w')
        = Some (error_line (AttributeError (type_name EdgeSample.stray) "get")).
Proof.
  split; [intros c; reflexivity |]. split; [intros d; discriminate |].
  exact (non_object_record_fails_batch Sample.cfg [Sample.aapl] EdgeSample.stray []
           (Sample.world_at 0 Sample.no_faults) (fun c => eq_refl)
           (fun d => ltac:(discriminate))).
Defined.

Lemma reported_count_is_rows_written_witness :
  run_stock_job Sample.cfg [Sample.second_page] (Sample.world_at 0 Sample.no_faults)
  = (Ok tt, [],
     (run_stock_job Sample.cfg [Sample.second_page]
        (Sample.world_at 0 Sample.no_faults)).2)
  ∧ ∃ n : nat,
      last (trace (run_stock_job Sample.cfg [Sample.second_page]
                     (Sample.world_at 0 Sample.no_faults)).2)
      = Some (report_line Sample.cfg (Z.of_nat n))
      ∧ length (inserted (new_events (Sample.world_at 0 Sample.no_faults)
                  (run_stock_job Sample.cfg [Sample.second_page]
                     (Sample.world_at 0 Sample.no_faults)).2)) = n.
Proof.
  assert (run_stock_job Sample.cfg [Sample.second_page]
            (Sample.world_at 0 Sample.no_faults)
          = (Ok tt, [],
             (run_stock_job Sample.cfg [Sample.second_page]
                (Sample.world_at 0 Sample.no_faults)).2)) as Hrun
    by (vm_compute; reflexivity).
  split; [exact Hrun |].
  exact (reported_count_is_rows_written Sample.cfg [Sample.second_page] []
           (Sample.world_at 0 Sample.no_faults) _ Hrun).
Defined.

Lemma fields_outside_schema_are_dropped_witness :
  (∀ col, col ∈ cols_order → col ≠ "ds" →
          Sample.aapl !! col = EdgeSample.aapl_with_extra !! col)
  ∧ build_row "2026-11-04" (VDict Sample.aapl)
    = build_row "2026-11-04" (VDict EdgeSample.aapl_with_extra).
Proof.
  assert (∀ col, col ∈ cols_order → col ≠ "ds" →
                 Sample.aapl !! col = EdgeSample.aapl_with_extra !! col) as Hsame.
  { intros col Hin _. unfold EdgeSample.aapl_with_extra.
    rewrite lookup_insert_ne; [reflexivity |]. intros <-.
    repeat (apply elem_of_cons in Hin as [Hin | Hin]; [discriminate Hin |]).
    by apply elem_of_nil in Hin. }
  split; [exact Hsame |].
  exact (fields_outside_schema_are_dropped "2026-11-04" Sample.aapl
           EdgeSample.aapl_with_extra Hsame).
Defined.

Lemma coerce_leaves_no_boolean_text_witness :
  coerce (VStr "True Corp") = VStr "True Corp"
  ∧ same_word "True Corp" "true" = false
  ∧ same_word "True Corp" "false" = false.
Proof.
  split; [reflexivity |].
  exact (coerce_leaves_no_boolean_text (VStr "True Corp") "True Corp" eq_refl).
Defined.

Lemma full_run_appends_every_record_witness :
  Forall2 full_page [Sample.first_page] [Sample.first_page_data]
  ∧ last_page Sample.second_page [VDict Sample.msft]
  ∧ concat (pg_results <$> [Sample.first_page_data]) ++ [VDict Sample.msft]
    = VDict <$> [Sample.aapl; Sample.msft]
  ∧ [Sample.aapl; Sample.msft] ≠ []
  ∧ (∀ c, faults (Sample.world_at Sample.before_midnight Sample.no_faults) c = None)
  ∧ ∃ w',
      run_stock_job Sample.cfg ([Sample.first_page] ++ Sample.second_page :: [])
        (Sample.world_at Sample.before_midnight Sample.no_faults)
      = (Ok tt, [], w')
      ∧ tables w' !! SF_TABLE Sample.cfg
        = Some (default [] (tables (Sample.world_at Sample.before_midnight
                                      Sample.no_faults) !! SF_TABLE Sample.cfg)
                ++ rows_of (Calendar.isoformat (Calendar.date_of
                     (now (Sample.world_at Sample.before_midnight Sample.no_faults)
                      + 15 * Z.of_nat (length [Sample.first_page]))))
                     [Sample.aapl; Sample.msft])
      ∧ open_connections w'
        = open_connections (Sample.world_at Sample.before_midnight Sample.no_faults)
      ∧ last (trace w')
        = Some (report_line Sample.cfg (Z.of_nat (length [Sample.aapl; Sample.msft]))).
Proof.
  split; [exact sample_first_page_full |].
  split; [exact sample_second_page_last |].
  split; [reflexivity |]. split; [discriminate |]. split; [intros c; reflexivity |].
  exact (full_run_appends_every_record Sample.cfg [Sample.first_page]
           [Sample.first_page_data] Sample.second_page [VDict Sample.msft]
           [Sample.aapl; Sample.msft] []
           (Sample.world_at Sample.before_midnight Sample.no_faults)
           sample_first_page_full sample_second_page_last eq_refl
           ltac:(discriminate) (fun c => eq_refl)).
Defined.

Lemma job_failure_in_writer_is_logged_witness :
  run_stock_job Sample.cfg [Sample.second_page]
    (Sample.world_at 0 Sample.connect_refused)
  = (Raise Sample.refused, [],
     (run_stock_job Sample.cfg [Sample.second_page]
        (Sample.world_at 0 Sample.connect_refused)).2)
  ∧ driver_calls (new_events (Sample.world_at 0 Sample.connect_refused)
       (run_stock_job Sample.cfg [Sample.second_page]
          (Sample.world_at 0 Sample.connect_refused)).2) ≠ []
  ∧ last (trace (run_stock_job Sample.cfg [Sample.second_page]
                   (Sample.world_at 0 Sample.connect_refused)).2)
    = Some (error_line Sample.refused).
Proof.
  assert (run_stock_job Sample.cfg [Sample.second_page]
            (Sample.world_at 0 Sample.connect_refused)
          = (Raise Sample.refused, [],
             (run_stock_job Sample.cfg [Sample.second_page]
                (Sample.world_at 0 Sample.connect_refused)).2)) as Hrun
    by (vm_compute; reflexivity).
  assert (driver_calls (new_events (Sample.world_at 0 Sample.connect_refused)
            (run_stock_job Sample.cfg [Sample.second_page]
               (Sample.world_at 0 Sample.connect_refused)).2) ≠ []) as Hcalls
    by (vm_compute; discriminate).
  split; [exact Hrun |]. split; [exact Hcalls |].
  exact (job_failure_in_writer_is_logged Sample.cfg [Sample.second_page] []
           (Sample.world_at 0 Sample.connect_refused) _ Sample.refused Hrun Hcalls).
Defined.
